(** * Kaiten webhook server: event model, handler registry, dispatcher, endpoint

    A shallow embedding of [webhooks.py].  Python values that can come out of
    a JSON decoder are a small inductive type; the processor, the handlers'
    own state, the log and the record of handler invocations are threaded
    through an explicit state-and-exception monad, so that each method reads
    like its Python body. *)

From Stdlib Require Import ZArith String List.
From Stdlib Require Import Floats.SpecFloat.
From stdpp Require Import gmap strings list fin_maps.

Set Warnings "-register-all".
Set Default Proof Using "Type".

(* ===================================================================== *)
(** ** Python values and exceptions                                       *)
(* ===================================================================== *)

(** What [json.loads] can return: [None], [bool], [int], [float], [str],
    [list] and [dict] with string keys. *)
Inductive pyval : Type :=
| PNone
| PBool (b : bool)
| PInt (z : Z)
| PFloat (f : spec_float)
| PStr (s : string)
| PList (l : list pyval)
| PDict (d : gmap string pyval).

(** The exception classes the module can meet.  The last three derive from
    [BaseException] only, all the others from [Exception]. *)
Inductive exn : Type :=
| AttributeError
| TypeError
| KeyError
| JSONDecodeError
| HTTPException (status_code : Z) (detail : string)
| OtherException (cls : string)
| SystemExit
| KeyboardInterrupt
| CancelledError.

(** [isinstance(e, Exception)] *)
Definition is_Exception (e : exn) : bool :=
  match e with
  | SystemExit | KeyboardInterrupt | CancelledError => false
  | _ => true
  end.

(** [isinstance(e, json.JSONDecodeError)] *)
Definition is_JSONDecodeError (e : exn) : bool :=
  match e with
  | JSONDecodeError => true
  | _ => false
  end.

(** How a call ends: it returns, it raises, or it never comes back. *)
Inductive Res (A : Type) : Type :=
| Done (a : A)
| Raised (e : exn)
| Hung.
Arguments Done {A} a.
Arguments Raised {A} e.
Arguments Hung {A}.

Definition is_dict (v : pyval) : bool :=
  match v with
  | PDict _ => true
  | _ => false
  end.

(** [obj.get(key, default)]: only a [dict] has the method. *)
Definition py_get (obj : pyval) (key : string) (dflt : pyval) : Res pyval :=
  match obj with
  | PDict d => Done (default dflt (d !! key))
  | _ => Raised AttributeError
  end.

(** Whether [hash(v)] succeeds: a [list] or a [dict] has no hash. *)
Definition hashable (v : pyval) : bool :=
  match v with
  | PList _ | PDict _ => false
  | _ => true
  end.

(** [datetime] values are clock readings. *)
Definition datetime : Type := Z.

(** The dataclass [WebhookEvent].  The field annotations are not enforced at
    run time, so every field holds whatever value was put there. *)
Record WebhookEvent : Type := mkWebhookEvent {
  event : pyval;
  author : pyval;
  data : pyval;
  timestamp : datetime
}.

(** Records written by [logger.info] and [logger.error]. *)
Inductive LogRecord : Type :=
| InfoRegistered (event_type : string)
| InfoRegisteredGlobal
| InfoProcessing (kind : pyval) (author_name : pyval)
| ErrorHandler (name : string) (e : exn)
| ErrorGlobalHandler (name : string) (e : exn)
| InfoReceived (kind : pyval)
| ErrorInvalidJSON
| ErrorWebhook (e : exn).

(** The request as the endpoint sees it: the outcome of [await request.json()]. *)
Record Request : Type := mkRequest {
  json : Res pyval
}.

Inductive Response : Type :=
| JSONResponse (status_code : Z) (content : pyval).

(* ===================================================================== *)
(** ** The server state and its monad                                     *)
(* ===================================================================== *)

Section Model.

(** The state the handlers themselves own and change. *)
Variable W : Type.

(** A registered callable: its [__name__] attribute when it has one, what
    [asyncio.iscoroutinefunction] answers for it, what calling it (and, for
    a coroutine function, awaiting the result) does, and what formatting an
    error it has raised does: the f-strings of the two [except] blocks
    format [{e}], which calls the [__str__] of the error, and that call
    returns, raises or hangs like any other.  A call acts on the handlers'
    own state and ends in one of the three ways of [Res].  Handlers of this
    type do not call back into the processor that runs them; the handlers
    that do are those of [Live] below. *)
Record Handler : Type := mkHandler {
  handler_name : option string;
  iscoroutinefunction : bool;
  handler_call : WebhookEvent -> W -> Res unit * W;
  handler_format : exn -> Res unit
}.

(** The registry of a processor is keyed by strings, as its annotation
    [Dict[str, List[Callable]]] and that of [register_handler]
    ([event_type: str]) have it. *)
Record WebhookProcessor : Type := mkWebhookProcessor {
  _handlers : gmap string (list Handler);
  _global_handlers : list Handler
}.

(** What an observer of the handlers sees, in order. *)
Inductive Obs : Type :=
| Enter (h : Handler) (ev : WebhookEvent)
| Leave (h : Handler) (raised : option exn).

Record State : Type := mkState {
  st_processor : WebhookProcessor;
  st_world : W;
  st_trace : list Obs;
  st_log : list LogRecord;
  st_tasks : list WebhookEvent;
  st_clock : datetime
}.

Definition M (A : Type) : Type := State -> Res A * State.

Definition ret {A : Type} (a : A) : M A := fun s => (Done a, s).

Definition bind {A B : Type} (m : M A) (k : A -> M B) : M B :=
  fun s =>
    match m s with
    | (Done a, s') => k a s'
    | (Raised e, s') => (Raised e, s')
    | (Hung, s') => (Hung, s')
    end.

Definition raise {A : Type} (e : exn) : M A := fun s => (Raised e, s).

Definition lift {A : Type} (r : Res A) : M A := fun s => (r, s).

(** [try: body  except <clauses>]: [clauses e] is the body of the first
    [except] clause matching [e], if any. *)
Definition try_except {A : Type} (body : M A) (clauses : exn -> option (M A)) : M A :=
  fun s =>
    match body s with
    | (Raised e, s') =>
        match clauses e with
        | Some handler => handler s'
        | None => (Raised e, s')
        end
    | r => r
    end.

(** [for x in l: body x] *)
Fixpoint for_each {A : Type} (l : list A) (body : A -> M unit) : M unit :=
  match l with
  | [] => ret tt
  | x :: l' => bind (body x) (fun _ => for_each l' body)
  end.

(** In this sequential model awaiting a coroutine runs it to its end. *)
Definition await {A : Type} (m : M A) : M A := m.

Definition set_processor (p : WebhookProcessor) (s : State) : State :=
  mkState p (st_world s) (st_trace s) (st_log s) (st_tasks s) (st_clock s).
Definition set_world (w : W) (s : State) : State :=
  mkState (st_processor s) w (st_trace s) (st_log s) (st_tasks s) (st_clock s).
Definition set_trace (t : list Obs) (s : State) : State :=
  mkState (st_processor s) (st_world s) t (st_log s) (st_tasks s) (st_clock s).
Definition set_log (l : list LogRecord) (s : State) : State :=
  mkState (st_processor s) (st_world s) (st_trace s) l (st_tasks s) (st_clock s).
Definition set_tasks (t : list WebhookEvent) (s : State) : State :=
  mkState (st_processor s) (st_world s) (st_trace s) (st_log s) t (st_clock s).

Definition observe (o : Obs) (s : State) : State := set_trace (st_trace s ++ [o]) s.

Definition logger_info (r : LogRecord) : M unit :=
  fun s => (Done tt, set_log (st_log s ++ [r]) s).

Definition logger_error (r : LogRecord) : M unit :=
  fun s => (Done tt, set_log (st_log s ++ [r]) s).

(** [datetime.now()] *)
Definition datetime_now : M datetime := fun s => (Done (st_clock s), s).

(** [handler(event)], run to its end. *)
Definition call (handler : Handler) (ev : WebhookEvent) : M unit :=
  fun s =>
    let s1 := observe (Enter handler ev) s in
    match handler_call handler ev (st_world s1) with
    | (Done _, w) => (Done tt, observe (Leave handler None) (set_world w s1))
    | (Raised e, w) => (Raised e, observe (Leave handler (Some e)) (set_world w s1))
    | (Hung, w) => (Hung, set_world w s1)
    end.

(** [handler.__name__] *)
Definition getattr_name (handler : Handler) : M string :=
  match handler_name handler with
  | Some n => ret n
  | None => raise AttributeError
  end.

(** Formatting [{e}] in an f-string, for an error [e] the handler raised. *)
Definition format_error (handler : Handler) (e : exn) : M unit :=
  lift (handler_format handler e).

End Model.

Arguments mkHandler {W}.
Arguments handler_name {W}.
Arguments iscoroutinefunction {W}.
Arguments handler_call {W}.
Arguments handler_format {W}.
Arguments mkWebhookProcessor {W}.
Arguments _handlers {W}.
Arguments _global_handlers {W}.
Arguments Enter {W}.
Arguments Leave {W}.
Arguments mkState {W}.
Arguments st_processor {W}.
Arguments st_world {W}.
Arguments st_trace {W}.
Arguments st_log {W}.
Arguments st_tasks {W}.
Arguments st_clock {W}.
Arguments ret {W A}.
Arguments bind {W A B}.
Arguments raise {W A}.
Arguments lift {W A}.
Arguments try_except {W A}.
Arguments for_each {W A}.
Arguments await {W A}.
Arguments set_processor {W}.
Arguments set_world {W}.
Arguments set_trace {W}.
Arguments set_log {W}.
Arguments set_tasks {W}.
Arguments observe {W}.
Arguments logger_info {W}.
Arguments logger_error {W}.
Arguments datetime_now {W}.
Arguments call {W}.
Arguments getattr_name {W}.
Arguments format_error {W}.

Declare Scope py_scope.
Delimit Scope py_scope with py.
Notation "x <- m ;; k" := (bind m (fun x => k))
  (at level 100, m at next level, right associativity) : py_scope.
Notation "m ;; k" := (bind m (fun _ => k))
  (at level 100, right associativity) : py_scope.
Open Scope py_scope.

(* ===================================================================== *)
(** ** The module's code                                                  *)
(* ===================================================================== *)

Section Code.

Variable W : Type.

(** [WebhookEvent.from_payload(payload)] *)
Definition from_payload (payload : pyval) : M W WebhookEvent :=
  ev <- lift (py_get payload "event" (PStr "")) ;;
  d <- lift (py_get payload "data" (PDict ∅)) ;;
  a <- lift (py_get d "author" (PDict ∅)) ;;
  d' <- lift (py_get payload "data" (PDict ∅)) ;;
  now <- datetime_now ;;
  ret (mkWebhookEvent ev a d' now).

(** [WebhookProcessor()] *)
Definition new_processor : WebhookProcessor W := mkWebhookProcessor ∅ [].

(** [event_type in self._handlers] *)
Definition handlers_contains (event_type : string) : M W bool :=
  fun s => (Done (bool_decide (is_Some (_handlers (st_processor s) !! event_type))), s).

(** [self._handlers[event_type] = l] *)
Definition handlers_setitem (event_type : string) (l : list (Handler W)) : M W unit :=
  fun s =>
    let p := st_processor s in
    (Done tt, set_processor (mkWebhookProcessor (<[event_type := l]> (_handlers p)) (_global_handlers p)) s).

(** [self._handlers[event_type].append(handler)]: the subscript raises
    [KeyError] on a missing key; the list is changed in place. *)
Definition handlers_getitem_append (event_type : string) (handler : Handler W) : M W unit :=
  fun s =>
    let p := st_processor s in
    match _handlers p !! event_type with
    | Some l =>
        (Done tt, set_processor (mkWebhookProcessor (<[event_type := l ++ [handler]]> (_handlers p)) (_global_handlers p)) s)
    | None => (Raised KeyError, s)
    end.

(** [self._global_handlers.append(handler)] *)
Definition global_handlers_append (handler : Handler W) : M W unit :=
  fun s =>
    let p := st_processor s in
    (Done tt, set_processor (mkWebhookProcessor (_handlers p) (_global_handlers p ++ [handler])) s).

(** [WebhookProcessor.register_handler] *)
Definition register_handler (event_type : string) (handler : Handler W) : M W unit :=
  absent <- (present <- handlers_contains event_type ;; ret (negb present)) ;;
  (if absent : bool then handlers_setitem event_type [] else ret tt) ;;
  handlers_getitem_append event_type handler ;;
  logger_info (InfoRegistered event_type).

(** [WebhookProcessor.register_global_handler] *)
Definition register_global_handler (handler : Handler W) : M W unit :=
  global_handlers_append handler ;;
  logger_info InfoRegisteredGlobal.

(** The sequence registered for a kind, [[]] when there is none: the value
    of [self._handlers.get(kind, [])] for a string [kind]. *)
Definition handlers_for (kind : string) (p : WebhookProcessor W) : list (Handler W) :=
  default [] (_handlers p !! kind).

(** [self._handlers.get(key, [])] for any key: hashing a [list] or a [dict]
    raises [TypeError]; a hashable key that is no string equals none of the
    string keys. *)
Definition handlers_get (key : pyval) : M W (list (Handler W)) :=
  fun s =>
    match key with
    | PStr kind => (Done (handlers_for kind (st_processor s)), s)
    | PList _ | PDict _ => (Raised TypeError, s)
    | _ => (Done [], s)
    end.

(** The handlers [process_event] finds for the kind of an event: the keys
    of the registry are strings ([event_type: str]), so a kind that is no
    string has none. *)
Definition keyed_handlers (kind : pyval) (p : WebhookProcessor W) : list (Handler W) :=
  match kind with
  | PStr k => handlers_for k p
  | _ => []
  end.

(** The dispatch sequence of an event: the handlers of its kind, then the
    global ones. *)
Definition dispatch_sequence (ev : WebhookEvent) (p : WebhookProcessor W)
    : list (Handler W) :=
  keyed_handlers (event ev) p ++ _global_handlers p.

(** [self._global_handlers] *)
Definition global_handlers : M W (list (Handler W)) :=
  fun s => (Done (_global_handlers (st_processor s)), s).

(** The body of the two loops of [process_event]; [record] is the error
    record of the loop.  The f-string of the [except] block is evaluated
    before [logger.error] is called: [handler.__name__] first, then [{e}]. *)
Definition invoke_guarded (record : string -> exn -> LogRecord)
    (ev : WebhookEvent) (handler : Handler W) : M W unit :=
  try_except
    (if iscoroutinefunction handler
     then await (call handler ev)
     else call handler ev)
    (fun e =>
       if is_Exception e
       then Some (name <- getattr_name handler ;;
                  format_error handler e ;;
                  logger_error (record name e))
       else None).

(** [WebhookProcessor.process_event] *)
Definition process_event (ev : WebhookEvent) : M W unit :=
  author_name <- lift (py_get (author ev) "name" (PStr "Unknown")) ;;
  logger_info (InfoProcessing (event ev) author_name) ;;
  handlers <- handlers_get (event ev) ;;
  for_each handlers (invoke_guarded ErrorHandler ev) ;;
  globals <- global_handlers ;;
  for_each globals (invoke_guarded ErrorGlobalHandler ev).

(** [background_tasks.add_task(self.processor.process_event, event)] *)
Definition add_task (ev : WebhookEvent) : M W unit :=
  fun s => (Done tt, set_tasks (st_tasks s ++ [ev]) s).

Definition success_content : pyval :=
  PDict {[ "message" := PStr "Webhook processed successfully" ]}.

(** The endpoint [webhook_handler] of [_setup_routes]. *)
Definition webhook_handler (request : Request) : M W Response :=
  try_except
    (payload <- lift (json request) ;;
     kind <- lift (py_get payload "event" (PStr "unknown")) ;;
     logger_info (InfoReceived kind) ;;
     ev <- from_payload payload ;;
     add_task ev ;;
     ret (JSONResponse 200 success_content))
    (fun e =>
       if is_JSONDecodeError e
       then Some (logger_error ErrorInvalidJSON ;;
                  raise (HTTPException 400 "Invalid JSON"))
       else if is_Exception e
       then Some (logger_error (ErrorWebhook e) ;;
                  raise (HTTPException 500 "Internal server error"))
       else None).

(** The framework around the endpoint, as far as the module relies on it:
    a request starts with no scheduled task; the tasks an endpoint scheduled
    are run, in order, once it has returned its response, and what becomes of
    them no longer reaches the client; when the endpoint raises, nothing is
    run. *)
Definition handle_request (request : Request) : M W Response :=
  fun s =>
    match webhook_handler request (set_tasks [] s) with
    | (Done response, s1) =>
        (Done response, snd (for_each (st_tasks s1) process_event s1))
    | r => r
    end.

(** [KaitenWebhookServer.on(event_type)(func)] and [on_any()(func)]: the
    decorators register and give the function back. *)
Definition on (event_type : string) (func : Handler W) : M W (Handler W) :=
  register_handler event_type func ;; ret func.

Definition on_any (func : Handler W) : M W (Handler W) :=
  register_global_handler func ;; ret func.

(* --------------------------------------------------------------------- *)
(** *** Vocabulary of the properties                                      *)
(* --------------------------------------------------------------------- *)

(** The handlers entered in a stretch of observations, in order. *)
Fixpoint invoked (t : list (Obs W)) : list (Handler W) :=
  match t with
  | [] => []
  | Enter h _ :: t' => h :: invoked t'
  | Leave _ _ :: t' => invoked t'
  end.

(** One complete invocation: entered with [ev], left with outcome [r]. *)
Definition bracket (ev : WebhookEvent) (h : Handler W) (r : option exn) : list (Obs W) :=
  [Enter h ev; Leave h r].

(** Complete invocations of [hs], one after the other, with outcomes [rs]. *)
Fixpoint brackets (ev : WebhookEvent) (hs : list (Handler W)) (rs : list (option exn))
    : list (Obs W) :=
  match hs, rs with
  | h :: hs', r :: rs' => bracket ev h r ++ brackets ev hs' rs'
  | _, _ => []
  end.

(** The error records one loop writes for outcomes [rs] of handlers [hs]. *)
Fixpoint error_records (record : string -> exn -> LogRecord)
    (hs : list (Handler W)) (rs : list (option exn)) : list LogRecord :=
  match hs, rs with
  | h :: hs', r :: rs' =>
      match r, handler_name h with
      | Some e, Some n => record n e :: error_records record hs' rs'
      | _, _ => error_records record hs' rs'
      end
  | _, _ => []
  end.

(** A handler that, whatever the event and its own state, comes back, and
    whose failures can be absorbed: it fails only with errors deriving from
    [Exception] that can be formatted, and has a [__name__] if it can fail
    at all.  Like every handler of this type it registers no handler while
    it runs. *)
Definition well_behaved (h : Handler W) : Prop :=
  forall ev w,
    match fst (handler_call h ev w) with
    | Done _ => True
    | Raised e =>
        is_Exception e = true /\ is_Some (handler_name h) /\
        handler_format h e = Done tt
    | Hung => False
    end.

(** The state after a complete invocation with outcome [r] that left the
    handlers' own state at [w], before anything is logged. *)
Definition left_state (ev : WebhookEvent) (h : Handler W) (r : option exn)
    (w : W) (s : State W) : State W :=
  mkState (st_processor s) w (st_trace s ++ bracket ev h r)
    (st_log s) (st_tasks s) (st_clock s).

(** The ["data"] entry of a payload is absent or a mapping. *)
Definition data_absent_or_dict (d : gmap string pyval) : bool :=
  is_dict (default (PDict ∅) (d !! "data")).

(** The payloads [from_payload] accepts: mappings whose ["data"] entry is
    absent or a mapping. *)
Definition normalizable (payload : pyval) : bool :=
  match payload with
  | PDict d => data_absent_or_dict d
  | _ => false
  end.

(** [d.get("author", {})] for the value [d] of the ["data"] field. *)
Definition author_of (d : pyval) : pyval :=
  match d with
  | PDict m => default (PDict ∅) (m !! "author")
  | _ => PDict ∅
  end.

(** A computation that leaves the processor and the scheduled tasks as
    they were, however it ends. *)
Definition preserves_registry {A : Type} (m : M W A) : Prop :=
  forall s, st_processor (snd (m s)) = st_processor s /\
            st_tasks (snd (m s)) = st_tasks s.

End Code.

Arguments from_payload {W}.
Arguments new_processor {W}.
Arguments handlers_contains {W}.
Arguments handlers_setitem {W}.
Arguments handlers_getitem_append {W}.
Arguments global_handlers_append {W}.
Arguments register_handler {W}.
Arguments register_global_handler {W}.
Arguments handlers_for {W}.
Arguments handlers_get {W}.
Arguments keyed_handlers {W}.
Arguments dispatch_sequence {W}.
Arguments global_handlers {W}.
Arguments invoke_guarded {W}.
Arguments process_event {W}.
Arguments add_task {W}.
Arguments webhook_handler {W}.
Arguments handle_request {W}.
Arguments on {W}.
Arguments on_any {W}.
Arguments invoked {W}.
Arguments bracket {W}.
Arguments brackets {W}.
Arguments error_records {W}.
Arguments well_behaved {W}.
Arguments left_state {W}.
Arguments preserves_registry {W A}.

(* ===================================================================== *)
(** ** The rest of the module                                             *)
(* ===================================================================== *)

(** [KaitenWebhookServer]: its configuration and [run].  The processor of a
    server is the one of the state above; [uvicorn.run] itself is outside
    the module, so [run] is modelled by what it logs and the keyword
    arguments it hands over. *)
Module Server.

Record KaitenWebhookServer : Type := mkKaitenWebhookServer {
  host : string;
  port : Z;
  webhook_path : string
}.

(** [KaitenWebhookServer(host=..., port=..., webhook_path=...)]: an omitted
    argument takes its default. *)
Definition init (host : option string) (port : option Z) (webhook_path : option string)
    : KaitenWebhookServer :=
  mkKaitenWebhookServer (default "0.0.0.0" host) (default 8080%Z port)
    (default "/kaiten/webhook" webhook_path).

Inductive StartupRecord : Type :=
| InfoStarting (host : string) (port : Z)
| InfoEndpoint (path : string).

(** The dictionary [run] starts from. *)
Definition config_kwargs (self : KaitenWebhookServer) : gmap string pyval :=
  {[ "host" := PStr (host self); "port" := PInt (port self); "log_level" := PStr "info" ]}.

(** [d.update(other)]: the entries of [other] win. *)
Definition dict_update (d other : gmap string pyval) : gmap string pyval := other ∪ d.

(** [KaitenWebhookServer.run] with keyword arguments [kwargs]: the two records written and the
    keyword arguments passed to [uvicorn.run]. *)
Definition run (self : KaitenWebhookServer) (kwargs : gmap string pyval)
    : list StartupRecord * gmap string pyval :=
  let config := dict_update (config_kwargs self) kwargs in
  ([InfoStarting (host self) (port self); InfoEndpoint (webhook_path self)], config).

End Server.

(* ===================================================================== *)
(** ** Handlers that call back into the processor                         *)
(* ===================================================================== *)

(** A handler is any callable, and nothing keeps one from registering
    handlers on the processor that is running it.  The two loops of
    [process_event] iterate the registry's own lists, not copies, so what
    is appended to a list while its loop runs is visited by that loop, and
    what is appended to [_global_handlers] during the first loop is
    visited by the second.  This module embeds registration and dispatch
    for such handlers: a call also yields the registrations it makes, and a
    loop reads its list anew at every step.  The two registration methods
    are what a handler does to the processor here; a handler that writes
    to its private attributes, or dispatches an event itself, is not
    covered. *)
Module Live.

Section Live.

Variable W : Type.

(** A registered callable, as [Handler] above, except that a call also
    yields the calls of [register_handler] and [register_global_handler] it
    makes on the processor, in order. *)
Inductive Handler : Type :=
| mkHandler (name : option string) (coroutine : bool)
    (run : WebhookEvent -> W -> Res unit * W * list Registration)
    (format : exn -> Res unit)
with Registration : Type :=
| Keyed (event_type : string) (handler : Handler)
| Global (handler : Handler).

Definition handler_name (h : Handler) : option string :=
  match h with mkHandler name _ _ _ => name end.
Definition iscoroutinefunction (h : Handler) : bool :=
  match h with mkHandler _ coroutine _ _ => coroutine end.
Definition handler_call (h : Handler)
    : WebhookEvent -> W -> Res unit * W * list Registration :=
  match h with mkHandler _ _ run _ => run end.
Definition handler_format (h : Handler) : exn -> Res unit :=
  match h with mkHandler _ _ _ format => format end.

Record WebhookProcessor : Type := mkWebhookProcessor {
  _handlers : gmap string (list Handler);
  _global_handlers : list Handler
}.

(** What is observed of a run: a handler is entered and left, as above,
    and a handler that is running registers a handler. *)
Inductive Obs : Type :=
| Enter (h : Handler) (ev : WebhookEvent)
| Leave (h : Handler) (raised : option exn)
| Registers (r : Registration).

Record State : Type := mkState {
  st_processor : WebhookProcessor;
  st_world : W;
  st_trace : list Obs;
  st_log : list LogRecord
}.

Definition set_processor (p : WebhookProcessor) (s : State) : State :=
  mkState p (st_world s) (st_trace s) (st_log s).
Definition set_world (w : W) (s : State) : State :=
  mkState (st_processor s) w (st_trace s) (st_log s).
Definition observe (o : Obs) (s : State) : State :=
  mkState (st_processor s) (st_world s) (st_trace s ++ [o]) (st_log s).
Definition logger (r : LogRecord) (s : State) : State :=
  mkState (st_processor s) (st_world s) (st_trace s) (st_log s ++ [r]).

(** What the first three lines of [register_handler] do to the processor:
    the key is there after the first two, so the subscript of the third
    cannot fail. *)
Definition add_handler (event_type : string) (handler : Handler)
    (p : WebhookProcessor) : WebhookProcessor :=
  let handlers :=
    match _handlers p !! event_type with
    | Some _ => _handlers p
    | None => <[event_type := []]> (_handlers p)
    end in
  mkWebhookProcessor
    (<[event_type := default [] (handlers !! event_type) ++ [handler]]> handlers)
    (_global_handlers p).

(** What the first line of [register_global_handler] does to it. *)
Definition add_global_handler (handler : Handler) (p : WebhookProcessor)
    : WebhookProcessor :=
  mkWebhookProcessor (_handlers p) (_global_handlers p ++ [handler]).

(** [WebhookProcessor.register_handler] *)
Definition register_handler (event_type : string) (handler : Handler) (s : State) : State :=
  logger (InfoRegistered event_type)
    (set_processor (add_handler event_type handler (st_processor s)) s).

(** [WebhookProcessor.register_global_handler] *)
Definition register_global_handler (handler : Handler) (s : State) : State :=
  logger InfoRegisteredGlobal
    (set_processor (add_global_handler handler (st_processor s)) s).

(** A registration made by a handler that is running. *)
Definition perform (s : State) (r : Registration) : State :=
  match r with
  | Keyed event_type handler => register_handler event_type handler (observe (Registers r) s)
  | Global handler => register_global_handler handler (observe (Registers r) s)
  end.

(** What a registration does to the processor. *)
Definition apply_registration (p : WebhookProcessor) (r : Registration) : WebhookProcessor :=
  match r with
  | Keyed event_type handler => add_handler event_type handler p
  | Global handler => add_global_handler handler p
  end.

(** [handler(event)], run to its end: the registrations the handler makes
    are made before it is left. *)
Definition call (handler : Handler) (ev : WebhookEvent) (s : State) : Res unit * State :=
  let s1 := observe (Enter handler ev) s in
  match handler_call handler ev (st_world s1) with
  | (r, w, registrations) =>
      let s2 := foldl perform (set_world w s1) registrations in
      match r with
      | Done _ => (Done tt, observe (Leave handler None) s2)
      | Raised e => (Raised e, observe (Leave handler (Some e)) s2)
      | Hung => (Hung, s2)
      end
  end.

(** The body of the two loops of [process_event]. *)
Definition invoke_guarded (record : string -> exn -> LogRecord)
    (ev : WebhookEvent) (handler : Handler) (s : State) : Res unit * State :=
  match (if iscoroutinefunction handler then call handler ev s else call handler ev s) with
  | (Raised e, s') =>
      if is_Exception e
      then match handler_name handler with
           | Some name =>
               match handler_format handler e with
               | Done _ => (Done tt, logger (record name e) s')
               | Raised x => (Raised x, s')
               | Hung => (Hung, s')
               end
           | None => (Raised AttributeError, s')
           end
      else (Raised e, s')
  | r => r
  end.

(** [for handler in live: body], from position [i]: the iterator of a list
    looks the position up in the list as it is at that step.  A loop over a
    list that keeps growing never ends, so the steps are counted: with
    [fuel] steps allowed the result is [None] when the loop is not over
    after them. *)
Fixpoint for_each_live (fuel : nat) (live : State -> list Handler)
    (body : Handler -> State -> Res unit * State) (i : nat) (s : State)
    : option (Res unit * State) :=
  match fuel with
  | O => None
  | S fuel' =>
      match live s !! i with
      | None => Some (Done tt, s)
      | Some handler =>
          match body handler s with
          | (Done _, s') => for_each_live fuel' live body (S i) s'
          | r => Some r
          end
      end
  end.

(** The list [self._handlers.get(kind, [])] is bound to: the registry's own
    list for a kind that has one, which stays under that key for good, and
    a fresh empty list otherwise. *)
Definition keyed_list (kind : pyval) (s0 : State) : State -> list Handler :=
  match kind with
  | PStr k =>
      match _handlers (st_processor s0) !! k with
      | Some _ => fun s => default [] (_handlers (st_processor s) !! k)
      | None => fun _ => []
      end
  | _ => fun _ => []
  end.

(** [WebhookProcessor.process_event] *)
Definition process_event (fuel : nat) (ev : WebhookEvent) (s : State)
    : option (Res unit * State) :=
  match py_get (author ev) "name" (PStr "Unknown") with
  | Done author_name =>
      let s0 := logger (InfoProcessing (event ev) author_name) s in
      if hashable (event ev)
      then match for_each_live fuel (keyed_list (event ev) s0)
                   (invoke_guarded ErrorHandler ev) 0 s0 with
           | Some (Done _, s1) =>
               for_each_live fuel (fun s => _global_handlers (st_processor s))
                 (invoke_guarded ErrorGlobalHandler ev) 0 s1
           | r => r
           end
      else Some (Raised TypeError, s0)
  | Raised e => Some (Raised e, s)
  | Hung => Some (Hung, s)
  end.

(** The handlers entered in a stretch of observations, in order. *)
Fixpoint invoked (t : list Obs) : list Handler :=
  match t with
  | [] => []
  | Enter h _ :: t' => h :: invoked t'
  | Leave _ _ :: t' => invoked t'
  | Registers _ :: t' => invoked t'
  end.

(** The registrations made by running handlers in a stretch of
    observations, in order. *)
Fixpoint registrations (t : list Obs) : list Registration :=
  match t with
  | [] => []
  | Registers r :: t' => r :: registrations t'
  | _ :: t' => registrations t'
  end.

(** A handler that registers nothing, whatever the event and its state. *)
Definition quiet (h : Handler) : Prop :=
  forall ev w, snd (handler_call h ev w) = [].

(** The handlers a processor holds, under a kind or as global ones. *)
Definition holds (p : WebhookProcessor) (h : Handler) : Prop :=
  (exists k hs, _handlers p !! k = Some hs /\ h ∈ hs) \/ h ∈ _global_handlers p.

(** The handlers a dispatch of [ev] starts from. *)
Definition dispatch_sequence (ev : WebhookEvent) (p : WebhookProcessor) : list Handler :=
  match event ev with
  | PStr k => default [] (_handlers p !! k)
  | _ => []
  end ++ _global_handlers p.

End Live.

Arguments mkHandler {W}.
Arguments handler_name {W}.
Arguments iscoroutinefunction {W}.
Arguments handler_call {W}.
Arguments handler_format {W}.
Arguments Keyed {W}.
Arguments Global {W}.
Arguments mkWebhookProcessor {W}.
Arguments _handlers {W}.
Arguments _global_handlers {W}.
Arguments Enter {W}.
Arguments Leave {W}.
Arguments Registers {W}.
Arguments mkState {W}.
Arguments st_processor {W}.
Arguments st_world {W}.
Arguments st_trace {W}.
Arguments st_log {W}.
Arguments set_processor {W}.
Arguments set_world {W}.
Arguments observe {W}.
Arguments logger {W}.
Arguments add_handler {W}.
Arguments add_global_handler {W}.
Arguments register_handler {W}.
Arguments register_global_handler {W}.
Arguments perform {W}.
Arguments apply_registration {W}.
Arguments call {W}.
Arguments invoke_guarded {W}.
Arguments for_each_live {W}.
Arguments keyed_list {W}.
Arguments process_event {W}.
Arguments invoked {W}.
Arguments registrations {W}.
Arguments quiet {W}.
Arguments holds {W}.
Arguments dispatch_sequence {W}.

(** A global handler that, when invoked, registers another global handler:
    [def registrar(event): journal.append("registrar");
    processor.register_global_handler(late)]. *)
Definition late : Handler (list string) :=
  mkHandler (Some "late") false (fun _ w => (Done tt, w ++ ["late"], []))
    (fun _ => Done tt).

Definition registrar : Handler (list string) :=
  mkHandler (Some "registrar") false
    (fun _ w => (Done tt, w ++ ["registrar"], [Global late]))
    (fun _ => Done tt).

Definition with_registrar : State (list string) :=
  register_global_handler registrar (mkState (mkWebhookProcessor ∅ []) [] [] []).

(** Two handlers that register nothing, one for a kind and one global. *)
Definition with_quiet_handlers : State (list string) :=
  register_global_handler late
    (register_handler "card_moved" late (mkState (mkWebhookProcessor ∅ []) [] [] [])).

Definition card_moved_event : WebhookEvent :=
  mkWebhookEvent (PStr "card_moved") (PDict ∅) (PDict ∅) 1700000000%Z.

End Live.

(** A handler that does not call back, among the handlers that may: it
    makes no registration.  The processors, observations and states of the
    first embedding carry over with their handlers. *)
Definition live_handler {W : Type} (h : Handler W) : Live.Handler W :=
  Live.mkHandler (handler_name h) (iscoroutinefunction h)
    (fun ev w => (handler_call h ev w, [])) (handler_format h).

Definition live_processor {W : Type} (p : WebhookProcessor W) : Live.WebhookProcessor W :=
  Live.mkWebhookProcessor (fmap (M:=list) (live_handler (W:=W)) <$> _handlers p)
    (live_handler <$> _global_handlers p).

Definition live_obs {W : Type} (o : Obs W) : Live.Obs W :=
  match o with
  | Enter h ev => Live.Enter (live_handler h) ev
  | Leave h raised => Live.Leave (live_handler h) raised
  end.

Definition live_state {W : Type} (s : State W) : Live.State W :=
  Live.mkState (live_processor (st_processor s)) (st_world s)
    (live_obs <$> st_trace s) (st_log s).

(* ===================================================================== *)
(** ** Concrete scenarios                                                 *)
(* ===================================================================== *)

(** Handlers whose own state is a journal of the names of those that ran. *)
Module Scenario.

Definition journal : Type := list string.

(** Errors whose [__str__] returns. *)
Definition printable (e : exn) : Res unit := Done tt.

(** [def name(event): journal.append(name)] *)
Definition returning (name : string) : Handler journal :=
  mkHandler (Some name) false (fun _ w => (Done tt, w ++ [name])) printable.

(** [async def name(event): journal.append(name)] *)
Definition returning_async (name : string) : Handler journal :=
  mkHandler (Some name) true (fun _ w => (Done tt, w ++ [name])) printable.

(** [def name(event): journal.append(name); raise ValueError()] *)
Definition failing (name : string) : Handler journal :=
  mkHandler (Some name) false
    (fun _ w => (Raised (OtherException "ValueError"), w ++ [name])) printable.

(** [def name(event): journal.append(name); sys.exit(1)] *)
Definition exiting (name : string) : Handler journal :=
  mkHandler (Some name) false (fun _ w => (Raised SystemExit, w ++ [name])) printable.

(** [async def name(event): journal.append(name); raise asyncio.CancelledError()] *)
Definition cancelled (name : string) : Handler journal :=
  mkHandler (Some name) true (fun _ w => (Raised CancelledError, w ++ [name])) printable.

(** [functools.partial(f, tag)] for a failing [f]: a callable with no
    [__name__]. *)
Definition failing_partial (tag : string) : Handler journal :=
  mkHandler None false
    (fun _ w => (Raised (OtherException "ValueError"), w ++ [tag])) printable.

(** [def name(event): journal.append(name); while True: pass] *)
Definition hanging (name : string) : Handler journal :=
  mkHandler (Some name) false (fun _ w => (Hung, w ++ [name])) printable.

(** [def name(event): journal.append(name); raise Weird()], where the
    [__str__] of [Weird] raises [RuntimeError]. *)
Definition unprintable (name : string) : Handler journal :=
  mkHandler (Some name) false
    (fun _ w => (Raised (OtherException "Weird"), w ++ [name]))
    (fun _ => Raised (OtherException "RuntimeError")).

Definition state_of (p : WebhookProcessor journal) : State journal :=
  mkState p [] [] [] [] 1700000000%Z.

Definition start : State journal := state_of new_processor.

(** The state after running [m] from [s]. *)
Definition after {A : Type} (m : M journal A) (s : State journal) : State journal :=
  snd (m s).

Definition alice_fields : gmap string pyval := {[ "name" := PStr "Alice" ]}.
Definition alice : pyval := PDict alice_fields.

(** [{"event":"comment_added","data":{"author":{"name":"Alice"},"text":"hi"}}] *)
Definition comment_fields : gmap string pyval :=
  {[ "event" := PStr "comment_added";
     "data" := PDict {[ "author" := alice; "text" := PStr "hi" ]} ]}.
Definition comment_payload : pyval := PDict comment_fields.

Definition comment_event : WebhookEvent :=
  mkWebhookEvent (PStr "comment_added") alice
    (PDict {[ "author" := alice; "text" := PStr "hi" ]}) 1700000000%Z.


(** [{}] and the event it normalizes to. *)
Definition empty_payload : pyval := PDict ∅.
Definition empty_event : WebhookEvent :=
  mkWebhookEvent (PStr "") (PDict ∅) (PDict ∅) 1700000000%Z.

(** [{"event": 5}], [{"data": 5}], [{"data": {"author": "Alice"}}] *)
Definition numeric_kind_payload : pyval := PDict {[ "event" := PInt 5 ]}.
Definition numeric_data_payload : pyval := PDict {[ "data" := PInt 5 ]}.
Definition string_author_payload : pyval :=
  PDict {[ "data" := PDict {[ "author" := PStr "Alice" ]} ]}.

(** A payload that carries a time of its own. *)
Definition dated_payload : pyval :=
  PDict {[ "event" := PStr "card_moved"; "timestamp" := PInt 42;
           "data" := PDict {[ "timestamp" := PInt 42 ]} ]}.

(** Registries used below. *)
Definition two_then_global : State journal :=
  after (register_handler "comment_added" (failing "a") ;;
         register_handler "comment_added" (returning_async "b") ;;
         register_global_handler (returning "g")) start.

Definition exit_then_b : State journal :=
  after (register_handler "comment_added" (exiting "a") ;;
         register_handler "comment_added" (returning "b") ;;
         register_global_handler (returning "g")) start.

Definition cancelled_then_g : State journal :=
  after (register_handler "comment_added" (cancelled "a") ;;
         register_global_handler (returning "g")) start.


Definition only_global : State journal :=
  after (register_handler "card_moved" (returning "k") ;;
         register_global_handler (returning "g")) start.

Definition exiting_global : State journal :=
  after (register_global_handler (exiting "g")) start.

Definition partial_then_b : State journal :=
  after (register_handler "comment_added" (failing_partial "a") ;;
         register_handler "comment_added" (returning "b")) start.

Definition hanging_then_b : State journal :=
  after (register_handler "comment_added" (hanging "a") ;;
         register_handler "comment_added" (returning "b")) start.

Definition unprintable_then_b : State journal :=
  after (register_handler "comment_added" (unprintable "a") ;;
         register_handler "comment_added" (returning "b") ;;
         register_global_handler (returning "g")) start.

Definition twice : State journal :=
  after (register_handler "card_moved" (returning "k") ;;
         register_handler "card_moved" (returning "k")) start.

(** [{"event":"card_moved","data":null}] *)
Definition null_data_payload : pyval :=
  PDict {[ "event" := PStr "card_moved"; "data" := PNone ]}.

(** The event [{"data":{"author":"Alice"}}] normalizes to, and one whose
    kind is a list, as [{"event":[]}] gives. *)
Definition string_author_event : WebhookEvent :=
  mkWebhookEvent (PStr "") (PStr "Alice")
    (PDict {[ "author" := PStr "Alice" ]}) 1700000000%Z.
Definition list_kind_event : WebhookEvent :=
  mkWebhookEvent (PList []) (PDict ∅) (PDict ∅) 1700000000%Z.


(** [{"event":"comment_added","data":{...},"id":7}]: the comment payload
    with one more entry. *)
Definition comment_fields_with_id : gmap string pyval :=
  <["id" := PInt 7]> comment_fields.

(** A server on its defaults, and keyword arguments for [run]. *)
Definition default_server : Server.KaitenWebhookServer := Server.init None None None.
Definition port_override : gmap string pyval :=
  {[ "port" := PInt 9000; "reload" := PBool true ]}.

End Scenario.

Import Scenario.

(** Evaluate a closed run; discharge [well_behaved] on concrete handlers. *)
Ltac run := vm_compute; reflexivity.

Ltac discharge_well_behaved :=
  vm_compute;
  repeat first [ apply Forall_nil | apply Forall_cons | intros ? ? | split
               | eexists | reflexivity | exact I ].

(* ===================================================================== *)
(** ** Properties                                                         *)
(* ===================================================================== *)

Section Properties.

Context {W : Type}.

Implicit Types (s : State W) (p : WebhookProcessor W) (h : Handler W).
Implicit Types (hs : list (Handler W)) (ev : WebhookEvent) (rs : list (option exn)).

(** *** The monad *)

Lemma bind_done {A B : Type} (m : M W A) (k : A -> M W B) s a s' :
  m s = (Done a, s') -> bind m k s = k a s'.
Proof. intros E. unfold bind. by rewrite E. Qed.

Lemma bind_raised {A B : Type} (m : M W A) (k : A -> M W B) s e s' :
  m s = (Raised e, s') -> bind m k s = (Raised e, s').
Proof. intros E. unfold bind. by rewrite E. Qed.

Lemma bind_hung {A B : Type} (m : M W A) (k : A -> M W B) s s' :
  m s = (Hung, s') -> bind m k s = (Hung, s').
Proof. intros E. unfold bind. by rewrite E. Qed.

Lemma for_each_app {A : Type} (l1 l2 : list A) (body : A -> M W unit) s :
  for_each (l1 ++ l2) body s = bind (for_each l1 body) (fun _ => for_each l2 body) s.
Proof.
  revert s. induction l1 as [|x l1 IH]; intros s; simpl; [done|].
  unfold bind in *. destruct (body x s) as [[[]| |] s1]; auto.
Qed.

(** *** One guarded invocation *)

Lemma invoke_guarded_run record ev h s :
  invoke_guarded record ev h s =
    match handler_call h ev (st_world s) with
    | (Done _, w) => (Done tt, left_state ev h None w s)
    | (Raised e, w) =>
        let s' := left_state ev h (Some e) w s in
        if is_Exception e
        then match handler_name h with
             | Some n =>
                 match handler_format h e with
                 | Done _ => (Done tt, set_log (st_log s ++ [record n e]) s')
                 | Raised x => (Raised x, s')
                 | Hung => (Hung, s')
                 end
             | None => (Raised AttributeError, s')
             end
        else (Raised e, s')
    | (Hung, w) =>
        (Hung, mkState (st_processor s) w (st_trace s ++ [Enter h ev])
                 (st_log s) (st_tasks s) (st_clock s))
    end.
Proof.
  unfold invoke_guarded, try_except, await, call, left_state, bracket.
  assert (Hifb : forall (b : bool) (x : M W unit), (if b then x else x) = x)
    by (by intros []).
  rewrite Hifb.
  destruct (handler_call h ev (st_world (observe (Enter h ev) s))) as [[[]|e|] w] eqn:E;
    unfold observe, set_trace, set_world in *; cbn in *; rewrite E.
  - by rewrite <- app_assoc.
  - destruct (is_Exception e); cbn.
    + unfold getattr_name, format_error, bind, ret, raise, lift, logger_error, set_log.
      destruct (handler_name h); cbn; [|by rewrite <- app_assoc].
      destruct (handler_format h e) as [[]|x|]; cbn; by rewrite <- app_assoc.
    + by rewrite <- app_assoc.
  - reflexivity.
Qed.

(** The outcomes of one guarded invocation, by what they leave behind: the
    handler is entered with the event; then either it is left and the loop
    goes on, or it is left and the loop ends with an error, or it is never
    left.  Nothing else is touched but the handlers' state and the log. *)
Lemma invoke_guarded_cases record ev h s :
  st_processor (snd (invoke_guarded record ev h s)) = st_processor s /\
  st_tasks (snd (invoke_guarded record ev h s)) = st_tasks s /\
  ((exists r, fst (invoke_guarded record ev h s) = Done tt /\
      st_trace (snd (invoke_guarded record ev h s)) = st_trace s ++ bracket ev h r) \/
   (exists e x, fst (invoke_guarded record ev h s) = Raised x /\
      st_trace (snd (invoke_guarded record ev h s)) = st_trace s ++ bracket ev h (Some e)) \/
   (exists e, fst (invoke_guarded record ev h s) = Hung /\
      st_trace (snd (invoke_guarded record ev h s)) = st_trace s ++ bracket ev h (Some e)) \/
   (fst (invoke_guarded record ev h s) = Hung /\
      st_trace (snd (invoke_guarded record ev h s)) = st_trace s ++ [Enter h ev])).
Proof.
  rewrite invoke_guarded_run.
  destruct (handler_call h ev (st_world s)) as [[[]|e|] w]; cbv zeta.
  - cbn. eauto 10.
  - destruct (is_Exception e); [destruct (handler_name h) as [n|];
      [destruct (handler_format h e) as [[]|x|]|]|]; cbn; eauto 10.
  - cbn. eauto 10.
Qed.

(** *** Stretches of observations *)

Lemma invoked_app (t1 t2 : list (Obs W)) :
  invoked (t1 ++ t2) = invoked t1 ++ invoked t2.
Proof.
  induction t1 as [|[h ev|h r] t1 IH]; simpl; [done| |done].
  by rewrite IH.
Qed.

Lemma invoked_brackets ev hs rs :
  length rs = length hs -> invoked (brackets ev hs rs) = hs.
Proof.
  revert rs. induction hs as [|h hs IH]; intros [|r rs] Hlen; simpl in *; try done.
  f_equal. apply IH. lia.
Qed.

(** *** One loop over a sequence of handlers *)

Lemma brackets_app ev hs1 hs2 rs1 rs2 :
  length rs1 = length hs1 ->
  brackets ev (hs1 ++ hs2) (rs1 ++ rs2) = brackets ev hs1 rs1 ++ brackets ev hs2 rs2.
Proof.
  revert rs1. induction hs1 as [|h hs1 IH]; intros [|r rs1] Hlen; cbn in *; try done.
  f_equal. f_equal. apply IH. lia.
Qed.

(** When every handler of the sequence is well behaved the loop runs to
    its end: each handler is entered and left in turn and each failure is
    logged under the handler's name. *)
Lemma stage_well_behaved record ev hs s :
  Forall well_behaved hs ->
  exists rs s',
    for_each hs (invoke_guarded record ev) s = (Done tt, s') /\
    length rs = length hs /\
    st_trace s' = st_trace s ++ brackets ev hs rs /\
    st_log s' = st_log s ++ error_records record hs rs /\
    st_processor s' = st_processor s /\
    (forall h e, Leave h (Some e) ∈ brackets ev hs rs ->
       exists n, handler_name h = Some n /\ record n e ∈ error_records record hs rs).
Proof.
  intros Hwb. revert s. induction Hwb as [|h hs Hh _ IH]; intros s.
  - exists [], s. simpl. rewrite !app_nil_r. repeat split; try done.
    intros h e Hin. by apply elem_of_nil in Hin.
  - cbn [for_each]. unfold bind. rewrite invoke_guarded_run.
    specialize (Hh ev (st_world s)).
    destruct (handler_call h ev (st_world s)) as [[[]|e|] w]; cbn in Hh; [| |done].
    + destruct (IH (left_state ev h None w s)) as (rs & s' & Hrun & Hlen & Ht & Hl & Hp & Hlog).
      exists (None :: rs), s'. cbn. rewrite Hrun, Ht, Hl, Hp. cbn.
      rewrite <- app_assoc. repeat split; try done; [by rewrite Hlen|].
      intros h' e' Hin. apply elem_of_cons in Hin as [?|Hin]; [done|].
      apply elem_of_cons in Hin as [?|Hin]; [done|]. by apply Hlog.
    + destruct Hh as (He & [n Hn] & Hf). rewrite He, Hn, Hf. cbv zeta.
      destruct (IH (set_log (st_log s ++ [record n e]) (left_state ev h (Some e) w s)))
        as (rs & s' & Hrun & Hlen & Ht & Hl & Hp & Hlog).
      exists (Some e :: rs), s'. cbn. rewrite Hrun, Ht, Hl, Hp, Hn. cbn.
      rewrite <- !app_assoc. repeat split; try done; [by rewrite Hlen|].
      intros h' e' Hin. apply elem_of_cons in Hin as [?|Hin]; [done|].
      apply elem_of_cons in Hin as [Heq|Hin].
      * injection Heq as -> ->. exists n. split; [done|]. apply elem_of_cons. by left.
      * destruct (Hlog h' e' Hin) as (n' & Hn' & Hin'). exists n'. split; [done|].
        apply elem_of_cons. by right.
Qed.

(** Whatever the handlers do, what a loop adds to the observations is:
    complete invocations, one after the other, of the handlers of a prefix
    of its sequence, and after them at most one handler, the next of the
    sequence, that was entered and never left.  A loop that runs to its end
    has gone through the whole sequence. *)
Lemma stage_shape record ev hs s :
  exists pre rs tail,
    length rs = length pre /\
    st_trace (snd (for_each hs (invoke_guarded record ev) s))
      = st_trace s ++ brackets ev pre rs ++ tail /\
    ((tail = [] /\ pre `prefix_of` hs) \/
     (exists h, tail = [Enter h ev] /\ (pre ++ [h]) `prefix_of` hs)) /\
    (forall u, fst (for_each hs (invoke_guarded record ev) s) = Done u ->
       pre = hs /\ tail = []).
Proof.
  revert s. induction hs as [|h hs IH]; intros s.
  - exists [], [], []. cbn. rewrite app_nil_r. repeat split; auto.
  - cbn [for_each]. unfold bind.
    destruct (invoke_guarded_cases record ev h s) as (_ & _ & Hc).
    destruct (invoke_guarded record ev h s) as [res s1]. cbn [fst snd] in Hc.
    destruct Hc as [(r & -> & Ht1)|[(e & x & -> & Ht1)|[(e & -> & Ht1)|(-> & Ht1)]]].
    + destruct (IH s1) as (pre & rs & tail & Hlen & Ht & Hsh & Hall).
      exists (h :: pre), (r :: rs), tail. cbn [length brackets]. rewrite Ht, Ht1.
      rewrite <- !app_assoc. refine (conj _ (conj eq_refl (conj _ _))); [by rewrite Hlen| |].
      * destruct Hsh as [[-> Hpre]|(h' & -> & Hpre)]; [left|right].
        -- split; [done|]. by apply prefix_cons.
        -- exists h'. split; [done|]. cbn. by apply prefix_cons.
      * intros u Hu. destruct (Hall u Hu) as [-> ->]. done.
    + exists [h], [Some e], []. cbn [length brackets fst snd]. rewrite Ht1, !app_nil_r.
      refine (conj eq_refl (conj eq_refl (conj _ _))); [|done].
      left. split; [done|]. apply prefix_cons, prefix_nil.
    + exists [h], [Some e], []. cbn [length brackets fst snd]. rewrite Ht1, !app_nil_r.
      refine (conj eq_refl (conj eq_refl (conj _ _))); [|done].
      left. split; [done|]. apply prefix_cons, prefix_nil.
    + exists [], [], [Enter h ev]. cbn [length brackets fst snd app]. rewrite Ht1.
      refine (conj eq_refl (conj eq_refl (conj _ _))); [|done].
      right. exists h. split; [done|]. apply prefix_cons, prefix_nil.
Qed.

(** Whatever the handlers do, a loop only adds to the observations, enters
    a prefix of its sequence (the whole of it when it runs to its end),
    and leaves the processor and the scheduled tasks alone. *)
Lemma stage_any record ev hs s :
  exists t,
    st_trace (snd (for_each hs (invoke_guarded record ev) s)) = st_trace s ++ t /\
    invoked t `prefix_of` hs /\
    (forall u, fst (for_each hs (invoke_guarded record ev) s) = Done u -> invoked t = hs) /\
    st_processor (snd (for_each hs (invoke_guarded record ev) s)) = st_processor s /\
    st_tasks (snd (for_each hs (invoke_guarded record ev) s)) = st_tasks s.
Proof.
  revert s. induction hs as [|h hs IH]; intros s.
  - exists []. cbn. rewrite app_nil_r. repeat split; done.
  - cbn [for_each]. unfold bind.
    destruct (invoke_guarded_cases record ev h s) as (Hp1 & Hk1 & Hc).
    destruct (invoke_guarded record ev h s) as [res s1]. cbn [fst snd] in Hp1, Hk1, Hc.
    destruct Hc as [(r & -> & Ht1)|[(e & x & -> & Ht1)|[(e & -> & Ht1)|(-> & Ht1)]]].
    + destruct (IH s1) as (t & Ht & Hpre & Hall & Hp & Hk).
      exists (bracket ev h r ++ t). rewrite Ht, Hp, Hk, Ht1, <- app_assoc.
      repeat split; try done; [by apply prefix_cons|].
      intros u Hu. cbn. f_equal. by apply (Hall u).
    + exists (bracket ev h (Some e)). cbn [fst snd].
      repeat split; try done. apply prefix_cons, prefix_nil.
    + exists (bracket ev h (Some e)). cbn [fst snd].
      repeat split; try done. apply prefix_cons, prefix_nil.
    + exists [Enter h ev]. cbn [fst snd].
      repeat split; try done. apply prefix_cons, prefix_nil.
Qed.

(** A handler is entered as soon as the well-behaved handlers before it in
    the sequence are through, whatever it and the handlers after it do. *)
Lemma stage_reaches record ev pre h post s :
  Forall well_behaved pre ->
  exists t1 t2,
    st_trace (snd (for_each (pre ++ h :: post) (invoke_guarded record ev) s))
      = st_trace s ++ t1 ++ Enter h ev :: t2 /\
    invoked t1 = pre.
Proof.
  intros Hwb.
  destruct (stage_well_behaved record ev pre s Hwb) as (rs & s1 & Hrun & Hlen & Ht & _).
  rewrite for_each_app, (bind_done _ _ _ _ _ Hrun).
  exists (brackets ev pre rs). cbn [for_each]. unfold bind.
  destruct (invoke_guarded_cases record ev h s1) as (_ & _ & Hc).
  destruct (invoke_guarded record ev h s1) as [res s2]. cbn [fst snd] in Hc.
  assert (Hentered : exists tl, st_trace s2 = st_trace s1 ++ Enter h ev :: tl).
  { destruct Hc as [(r & _ & Ht1)|[(e & x & _ & Ht1)|[(e & _ & Ht1)|(_ & Ht1)]]];
      rewrite Ht1; eauto. }
  destruct Hentered as [tl Htl].
  destruct res as [[]|x|]; cbn [snd].
  - destruct (stage_any record ev post s2) as (t' & Ht' & _).
    exists (tl ++ t'). rewrite Ht', Htl, Ht, <- !app_assoc.
    split; [done|]. by apply invoked_brackets.
  - exists tl. rewrite Htl, Ht, <- !app_assoc. split; [done|]. by apply invoked_brackets.
  - exists tl. rewrite Htl, Ht, <- !app_assoc. split; [done|]. by apply invoked_brackets.
Qed.

(** *** Dispatch *)

(** [process_event] on an event whose author is a mapping and whose kind
    can be hashed: the record of line one, then the two loops. *)
Lemma process_event_stages ev a s :
  author ev = PDict a -> hashable (event ev) = true ->
  process_event ev s =
    bind (for_each (keyed_handlers (event ev) (st_processor s))
            (invoke_guarded ErrorHandler ev))
         (fun _ => for_each (_global_handlers (st_processor s))
                     (invoke_guarded ErrorGlobalHandler ev))
      (set_log (st_log s
         ++ [InfoProcessing (event ev) (default (PStr "Unknown") (a !! "name"))]) s).
Proof.
  intros Ha Hh. unfold process_event, bind, lift, logger_info, handlers_get, global_handlers.
  rewrite Ha. cbn [py_get].
  destruct (event ev) as [| | | |k| |]; try done.
  cbn [keyed_handlers st_processor set_log].
  match goal with |- context [for_each ?l ?b ?s0] =>
    destruct (stage_any ErrorHandler ev l s0) as (t & _ & _ & _ & Hp & _);
    destruct (for_each l b s0) as [[[]|e|] s1] end; cbn in *; try done.
  by rewrite Hp.
Qed.

Lemma process_event_well_behaved ev a s :
  author ev = PDict a -> hashable (event ev) = true ->
  Forall well_behaved (keyed_handlers (event ev) (st_processor s)) ->
  Forall well_behaved (_global_handlers (st_processor s)) ->
  exists rk rg s',
    process_event ev s = (Done tt, s') /\
    length rk = length (keyed_handlers (event ev) (st_processor s)) /\
    length rg = length (_global_handlers (st_processor s)) /\
    st_trace s' = st_trace s
      ++ brackets ev (keyed_handlers (event ev) (st_processor s)) rk
      ++ brackets ev (_global_handlers (st_processor s)) rg /\
    st_log s' = st_log s
      ++ InfoProcessing (event ev) (default (PStr "Unknown") (a !! "name"))
      :: error_records ErrorHandler (keyed_handlers (event ev) (st_processor s)) rk
      ++ error_records ErrorGlobalHandler (_global_handlers (st_processor s)) rg /\
    (forall h e,
       Leave h (Some e) ∈ brackets ev (keyed_handlers (event ev) (st_processor s)) rk ->
       exists n, handler_name h = Some n /\
         ErrorHandler n e
           ∈ error_records ErrorHandler (keyed_handlers (event ev) (st_processor s)) rk) /\
    (forall h e, Leave h (Some e) ∈ brackets ev (_global_handlers (st_processor s)) rg ->
       exists n, handler_name h = Some n /\
         ErrorGlobalHandler n e
           ∈ error_records ErrorGlobalHandler (_global_handlers (st_processor s)) rg).
Proof.
  intros Ha Hh Hwk Hwg. rewrite (process_event_stages ev a s Ha Hh).
  set (s0 := set_log _ s).
  destruct (stage_well_behaved ErrorHandler ev _ s0 Hwk)
    as (rk & s1 & Hrun1 & Hlen1 & Ht1 & Hl1 & Hp1 & Hlog1).
  destruct (stage_well_behaved ErrorGlobalHandler ev _ s1 Hwg)
    as (rg & s2 & Hrun2 & Hlen2 & Ht2 & Hl2 & Hp2 & Hlog2).
  exists rk, rg, s2. rewrite (bind_done _ _ _ _ _ Hrun1), Hrun2, Ht2, Ht1, Hl2, Hl1.
  subst s0. cbn. rewrite <- !app_assoc. repeat split; done.
Qed.

(** Dispatch never touches the processor or the scheduled tasks. *)
Lemma preserves_bind {A B : Type} (m : M W A) (k : A -> M W B) :
  preserves_registry m -> (forall a, preserves_registry (k a)) ->
  preserves_registry (bind m k).
Proof.
  intros Hm Hk s. unfold bind. specialize (Hm s).
  destruct (m s) as [[a|e|] s1]; cbn in *; try done.
  destruct (Hk a s1) as [-> ->]. done.
Qed.

Lemma preserves_lift {A : Type} (r : Res A) : preserves_registry (W:=W) (lift r).
Proof. by intros s. Qed.

Lemma preserves_logger_info r : preserves_registry (W:=W) (logger_info r).
Proof. by intros s. Qed.

Lemma preserves_stage record ev hs :
  preserves_registry (W:=W) (for_each hs (invoke_guarded record ev)).
Proof.
  intros s. destruct (stage_any record ev hs s) as (t & _ & _ & _ & Hp & Hk). done.
Qed.

Lemma process_event_frame ev : preserves_registry (W:=W) (process_event ev).
Proof.
  unfold process_event.
  apply preserves_bind; [apply preserves_lift|intros n].
  apply preserves_bind; [apply preserves_logger_info|intros _].
  apply preserves_bind; [|intros l].
  { intros s. unfold handlers_get. by destruct (event ev). }
  apply preserves_bind; [apply preserves_stage|intros _].
  apply preserves_bind; [by intros s|intros g].
  apply preserves_stage.
Qed.

(** Where [process_event] gives up before the loops it adds no
    observation. *)
Lemma process_event_early ev s :
  is_dict (author ev) && hashable (event ev) = false ->
  st_trace (snd (process_event ev s)) = st_trace s /\
  fst (process_event ev s) <> Done tt.
Proof.
  intros Hno. unfold process_event, bind, lift, logger_info, handlers_get, py_get.
  destruct (author ev); cbn in *; try done.
  destruct (event ev); cbn in *; done.
Qed.

(** The shape of what dispatch adds to the observations, for every event
    and every registry. *)
Lemma process_event_shape ev s :
  exists pre rs tail,
    length rs = length pre /\
    st_trace (snd (process_event ev s)) = st_trace s ++ brackets ev pre rs ++ tail /\
    ((tail = [] /\ pre `prefix_of` dispatch_sequence ev (st_processor s)) \/
     (exists h, tail = [Enter h ev] /\
                (pre ++ [h]) `prefix_of` dispatch_sequence ev (st_processor s))) /\
    (forall u, fst (process_event ev s) = Done u ->
       pre = dispatch_sequence ev (st_processor s) /\ tail = []).
Proof.
  destruct (is_dict (author ev) && hashable (event ev)) eqn:Hok.
  - apply andb_true_iff in Hok as [Hd Hh].
    destruct (author ev) as [| | | | | |a] eqn:Ha; try done.
    rewrite (process_event_stages ev a s Ha Hh). set (s0 := set_log _ s).
    unfold bind, dispatch_sequence.
    destruct (stage_shape ErrorHandler ev (keyed_handlers (event ev) (st_processor s)) s0)
      as (pre1 & rs1 & tail1 & Hlen1 & Ht1 & Hsh1 & Hall1).
    destruct (for_each _ (invoke_guarded ErrorHandler ev) s0) as [[[]|x|] s1];
      cbn [fst snd] in *.
    + destruct (Hall1 () eq_refl) as [-> ->].
      destruct (stage_shape ErrorGlobalHandler ev (_global_handlers (st_processor s)) s1)
        as (pre2 & rs2 & tail2 & Hlen2 & Ht2 & Hsh2 & Hall2).
      exists (keyed_handlers (event ev) (st_processor s) ++ pre2), (rs1 ++ rs2), tail2.
      rewrite Ht2, Ht1, brackets_app, !app_nil_r, <- !app_assoc by done.
      refine (conj _ (conj eq_refl (conj _ _))).
      * rewrite !length_app. by rewrite Hlen1, Hlen2.
      * destruct Hsh2 as [[-> Hpre]|(h & -> & Hpre)]; [left|right].
        -- split; [done|]. by apply prefix_app.
        -- exists h. split; [done|]. rewrite <- app_assoc. by apply prefix_app.
      * intros u Hu. destruct (Hall2 u Hu) as [-> ->]. done.
    + exists pre1, rs1, tail1. refine (conj Hlen1 (conj Ht1 (conj _ _))); [|done].
      destruct Hsh1 as [[-> Hpre]|(h & -> & Hpre)]; [left|right].
      * split; [done|]. by apply prefix_app_r.
      * exists h. split; [done|]. by apply prefix_app_r.
    + exists pre1, rs1, tail1. refine (conj Hlen1 (conj Ht1 (conj _ _))); [|done].
      destruct Hsh1 as [[-> Hpre]|(h & -> & Hpre)]; [left|right].
      * split; [done|]. by apply prefix_app_r.
      * exists h. split; [done|]. by apply prefix_app_r.
  - destruct (process_event_early ev s Hok) as [Ht Hres].
    exists [], [], []. rewrite Ht. cbn [brackets length app]. rewrite app_nil_r.
    refine (conj eq_refl (conj eq_refl (conj _ _))).
    + left. split; [done|]. apply prefix_nil.
    + intros [] Hu. done.
Qed.


(** A handler of the dispatch sequence is entered with the event once the
    handlers before it, all well behaved, are through. *)
Lemma process_event_reaches ev a s pre h post :
  author ev = PDict a -> hashable (event ev) = true ->
  dispatch_sequence ev (st_processor s) = pre ++ h :: post ->
  Forall well_behaved pre ->
  exists t1 t2,
    st_trace (snd (process_event ev s)) = st_trace s ++ t1 ++ Enter h ev :: t2 /\
    invoked t1 = pre.
Proof.
  intros Ha Hh Hsplit Hwb. rewrite (process_event_stages ev a s Ha Hh).
  set (s0 := set_log _ s). unfold bind. unfold dispatch_sequence in Hsplit.
  apply app_eq_app in Hsplit as [m [[Hkeyed Hpost]|[Hpre Hglob]]].
  - (* the handler is a global one, or [m] is empty *)
    destruct m as [|h' m].
    + rewrite app_nil_r in Hkeyed. cbn in Hpost. rewrite Hkeyed, <- Hpost.
      destruct (stage_well_behaved ErrorHandler ev pre s0 Hwb)
        as (rk & s1 & Hrun & Hlen & Ht & _).
      rewrite Hrun.
      destruct (stage_reaches ErrorGlobalHandler ev [] h post s1 (Forall_nil_2 _))
        as (t1 & t2 & Ht2 & Hinv).
      cbn [app] in Ht2. exists (brackets ev pre rk ++ t1), t2.
      rewrite Ht2, Ht, <- !app_assoc. split; [done|].
      rewrite invoked_app, Hinv, app_nil_r. by apply invoked_brackets.
    + (* the handler is a keyed one *)
      injection Hpost as <- ->. rewrite Hkeyed.
      destruct (stage_reaches ErrorHandler ev pre h m s0 Hwb) as (t1 & t2 & Ht & Hinv).
      destruct (for_each (pre ++ h :: m) (invoke_guarded ErrorHandler ev) s0)
        as [[[]|e|] s1]; cbn in Ht; try (by exists t1, t2).
      destruct (stage_any ErrorGlobalHandler ev (_global_handlers (st_processor s)) s1)
        as (t' & Ht' & _).
      exists t1, (t2 ++ t'). rewrite Ht', Ht, <- !app_assoc. done.
  - (* the handler is a global one, after [m] *)
    rewrite Hpre in Hwb. apply Forall_app in Hwb as [Hwk Hwm].
    destruct (stage_well_behaved ErrorHandler ev _ s0 Hwk)
      as (rk & s1 & Hrun & Hlen & Ht & _).
    rewrite Hrun, Hglob.
    destruct (stage_reaches ErrorGlobalHandler ev m h post s1 Hwm)
      as (t1 & t2 & Ht2 & Hinv).
    exists (brackets ev (keyed_handlers (event ev) (st_processor s)) rk ++ t1), t2.
    rewrite Ht2, Ht, <- !app_assoc. split; [done|].
    rewrite invoked_app, Hinv, Hpre. f_equal. by apply invoked_brackets.
Qed.

(** *** Normalization *)

Lemma from_payload_run (d : gmap string pyval) s :
  from_payload (PDict d) s =
    match default (PDict ∅) (d !! "data") with
    | PDict m =>
        (Done (mkWebhookEvent (default (PStr "") (d !! "event"))
                 (default (PDict ∅) (m !! "author")) (PDict m) (st_clock s)), s)
    | _ => (Raised AttributeError, s)
    end.
Proof.
  unfold from_payload, bind, lift, datetime_now, ret. cbn.
  by destruct (default (PDict ∅) (d !! "data")).
Qed.

Lemma from_payload_not_dict payload s :
  is_dict payload = false -> from_payload payload s = (Raised AttributeError, s).
Proof. by destruct payload. Qed.

(** *** The endpoint *)

Lemma webhook_handler_decode_error request e s :
  json request = Raised e ->
  webhook_handler request s =
    if is_JSONDecodeError e
    then (Raised (HTTPException 400 "Invalid JSON"), set_log (st_log s ++ [ErrorInvalidJSON]) s)
    else if is_Exception e
    then (Raised (HTTPException 500 "Internal server error"),
          set_log (st_log s ++ [ErrorWebhook e]) s)
    else (Raised e, s).
Proof.
  intros E. unfold webhook_handler, try_except, bind, lift. rewrite E.
  by destruct e.
Qed.

Lemma webhook_handler_decoded request payload s :
  json request = Done payload ->
  webhook_handler request s =
    match payload with
    | PDict d =>
        let s1 := set_log (st_log s ++ [InfoReceived (default (PStr "unknown") (d !! "event"))]) s in
        match from_payload payload s1 with
        | (Done ev, _) =>
            (Done (JSONResponse 200 success_content), set_tasks (st_tasks s ++ [ev]) s1)
        | _ =>
            (Raised (HTTPException 500 "Internal server error"),
             set_log (st_log s1 ++ [ErrorWebhook AttributeError]) s1)
        end
    | _ =>
        (Raised (HTTPException 500 "Internal server error"),
         set_log (st_log s ++ [ErrorWebhook AttributeError]) s)
    end.
Proof.
  intros E. unfold webhook_handler, try_except. unfold bind at 1. unfold lift at 1.
  rewrite E. destruct payload as [| | | | | |d]; try done.
  unfold bind at 1. unfold lift at 1. cbn [py_get].
  unfold bind at 1. unfold logger_info at 1. unfold bind at 1.
  rewrite from_payload_run.
  by destruct (default (PDict ∅) (d !! "data")).
Qed.

(** *** Registration *)

Lemma register_handler_run k h s :
  register_handler k h s =
    (Done tt,
     set_log (st_log s ++ [InfoRegistered k])
       (set_processor
          (mkWebhookProcessor
             (<[k := handlers_for k (st_processor s) ++ [h]]> (_handlers (st_processor s)))
             (_global_handlers (st_processor s))) s)).
Proof.
  unfold register_handler, bind, ret, handlers_contains, handlers_setitem,
    handlers_getitem_append, logger_info, handlers_for.
  destruct (_handlers (st_processor s) !! k) as [l|] eqn:E; cbn.
  - by rewrite E.
  - rewrite lookup_insert_eq. cbn. by rewrite insert_insert_eq.
Qed.

Lemma register_global_handler_run h s :
  register_global_handler h s =
    (Done tt,
     set_log (st_log s ++ [InfoRegisteredGlobal])
       (set_processor
          (mkWebhookProcessor (_handlers (st_processor s))
             (_global_handlers (st_processor s) ++ [h])) s)).
Proof. reflexivity. Qed.

(** *** Handlers that call back *)

Lemma live_invoke_guarded_quiet record ev (g : Live.Handler W) (q : Live.State W) :
  Live.quiet g ->
  Live.st_processor (snd (Live.invoke_guarded record ev g q)) = Live.st_processor q.
Proof.
  intros Hq. unfold Live.invoke_guarded, Live.call.
  assert (Hifb : forall (b : bool) (x : Res unit * Live.State W), (if b then x else x) = x)
    by (by intros []).
  rewrite Hifb. specialize (Hq ev (Live.st_world (Live.observe (Live.Enter g ev) q))).
  destruct (Live.handler_call g ev _) as [[r w] regs]. cbn in Hq. subst regs.
  destruct r as [[]|e|]; cbn; try done.
  destruct (is_Exception e); [|done].
  destruct (Live.handler_name g); [|done].
  by destruct (Live.handler_format g e).
Qed.

(** A loop over a list that its body leaves alone leaves the processor
    alone, and is over after as many steps as the list is long, and one. *)
Lemma live_loop_quiet fuel (live : Live.State W -> list (Live.Handler W)) body l :
  (forall q q', Live.st_processor q = Live.st_processor q' -> live q = live q') ->
  (forall g q, g ∈ l -> Live.st_processor (snd (body g q)) = Live.st_processor q) ->
  forall i q,
    live q = l ->
    (forall r q', Live.for_each_live fuel live body i q = Some (r, q') ->
       Live.st_processor q' = Live.st_processor q) /\
    (length l - i < fuel -> is_Some (Live.for_each_live fuel live body i q)).
Proof.
  intros Hlive Hbody. induction fuel as [|fuel IH]; intros i q Hl.
  - split; [done|lia].
  - cbn [Live.for_each_live]. rewrite Hl.
    destruct (l !! i) as [g|] eqn:Hi.
    + assert (Hin : g ∈ l) by (by eapply list_elem_of_lookup_2).
      specialize (Hbody g q Hin).
      assert (Hlt : i < length l) by (by eapply lookup_lt_Some).
      destruct (body g q) as [[[]|e|] q1]; cbn [snd] in Hbody.
      * assert (Hl1 : live q1 = l) by (rewrite <- Hl; by apply Hlive).
        destruct (IH (S i) q1 Hl1) as [Hframe Hend]. split.
        -- intros r q' Hrun. rewrite (Hframe r q' Hrun). done.
        -- intros Hfuel. apply Hend. lia.
      * split; [|eauto]. intros r q' [= <- <-]. done.
      * split; [|eauto]. intros r q' [= <- <-]. done.
    + split; [|eauto]. intros r q' [= <- <-]. done.
Qed.

(** Dispatch to handlers that register nothing: it is over within one
    step more than there are handlers, and the processor is as it was. *)
Lemma live_process_event_quiet ev fuel (q : Live.State W) :
  Forall Live.quiet (Live.dispatch_sequence ev (Live.st_processor q)) ->
  (forall r q', Live.process_event fuel ev q = Some (r, q') ->
     Live.st_processor q' = Live.st_processor q) /\
  (length (Live.dispatch_sequence ev (Live.st_processor q)) < fuel ->
   is_Some (Live.process_event fuel ev q)).
Proof.
  intros Hq. unfold Live.dispatch_sequence in Hq. apply Forall_app in Hq as [Hqk Hqg].
  unfold Live.process_event, Live.dispatch_sequence.
  destruct (py_get (author ev) "name" (PStr "Unknown")) as [n|e|]; cbv zeta;
    [|split; [by intros r q' [= <- <-]|eauto]..].
  set (q0 := Live.logger _ q).
  destruct (hashable (event ev)) eqn:Hh; [|split; [by intros r q' [= <- <-]|eauto]].
  assert (Hk0 : Live.keyed_list (event ev) q0 q0
                = match event ev with
                  | PStr k0 => default [] (Live._handlers (Live.st_processor q) !! k0)
                  | _ => []
                  end).
  { unfold Live.keyed_list. destruct (event ev) as [| | | |k0| |]; try done.
    subst q0. cbn. destruct (Live._handlers (Live.st_processor q) !! k0) eqn:E; cbn;
      by rewrite ?E. }
  assert (Hklive : forall q1 q2, Live.st_processor q1 = Live.st_processor q2 ->
            Live.keyed_list (event ev) q0 q1 = Live.keyed_list (event ev) q0 q2).
  { intros q1 q2 Heq. unfold Live.keyed_list. destruct (event ev); try done.
    destruct (Live._handlers (Live.st_processor q0) !! _); [by rewrite Heq|done]. }
  destruct (live_loop_quiet fuel (Live.keyed_list (event ev) q0)
              (Live.invoke_guarded ErrorHandler ev) _ Hklive
              (fun g' q1 Hin => live_invoke_guarded_quiet ErrorHandler ev g' q1
                 (proj1 (Forall_forall _ _) Hqk g' Hin)) 0 q0 Hk0)
    as [Hframe1 Hend1].
  assert (Hglive : forall q1 q2 : Live.State W,
            Live.st_processor q1 = Live.st_processor q2 ->
            Live._global_handlers (Live.st_processor q1)
              = Live._global_handlers (Live.st_processor q2))
    by (by intros q1 q2 ->).
  pose proof (fun q1 Hs1 =>
    live_loop_quiet fuel (fun q2 => Live._global_handlers (Live.st_processor q2))
      (Live.invoke_guarded ErrorGlobalHandler ev) _ Hglive
      (fun g' q2 Hin => live_invoke_guarded_quiet ErrorGlobalHandler ev g' q2
         (proj1 (Forall_forall _ _) Hqg g' Hin)) 0 q1 Hs1) as Hloop2.
  split.
  + intros r q' Hrun.
    destruct (Live.for_each_live fuel (Live.keyed_list (event ev) q0) _ 0 q0)
      as [[[[]|e|] q1]|] eqn:E1; try done.
    * pose proof (Hframe1 _ _ eq_refl) as Hp1.
      assert (Hs1 : Live._global_handlers (Live.st_processor q1)
                    = Live._global_handlers (Live.st_processor q))
        by (by rewrite Hp1).
      destruct (Hloop2 q1 Hs1) as [Hframe2 _].
      rewrite (Hframe2 r q' Hrun), Hp1. done.
    * injection Hrun as <- <-. by rewrite (Hframe1 _ _ eq_refl).
    * injection Hrun as <- <-. by rewrite (Hframe1 _ _ eq_refl).
  + intros Hfuel. rewrite length_app in Hfuel.
    destruct Hend1 as [[res1 q1] E1]; [lia|]. rewrite E1.
    destruct res1 as [[]|e|]; [|eauto..].
    pose proof (Hframe1 _ _ E1) as Hp1.
    assert (Hs1 : Live._global_handlers (Live.st_processor q1)
                  = Live._global_handlers (Live.st_processor q))
      by (by rewrite Hp1).
    destruct (Hloop2 q1 Hs1) as [_ Hend2]. apply Hend2. lia.
Qed.

(** From one state to a later one the processor has changed by the
    registrations observed in between, and by nothing else. *)
Definition live_extends (q q' : Live.State W) : Prop :=
  exists t,
    Live.st_trace q' = Live.st_trace q ++ t /\
    Live.st_processor q'
      = foldl Live.apply_registration (Live.st_processor q) (Live.registrations t).

Lemma live_registrations_app (t1 t2 : list (Live.Obs W)) :
  Live.registrations (t1 ++ t2) = Live.registrations t1 ++ Live.registrations t2.
Proof.
  induction t1 as [|[]]; cbn; [done|done|done|]. by rewrite IHt1.
Qed.

Lemma live_extends_refl (q : Live.State W) : live_extends q q.
Proof. exists []. by rewrite app_nil_r. Qed.

Lemma live_extends_trans (q0 q1 q2 : Live.State W) :
  live_extends q0 q1 -> live_extends q1 q2 -> live_extends q0 q2.
Proof.
  intros (t1 & Ht1 & Hp1) (t2 & Ht2 & Hp2). exists (t1 ++ t2).
  rewrite Ht2, Ht1, app_assoc. split; [done|].
  by rewrite Hp2, Hp1, live_registrations_app, foldl_app.
Qed.

Lemma live_extends_logger r (q : Live.State W) : live_extends q (Live.logger r q).
Proof. exists []. cbn. by rewrite app_nil_r. Qed.

Lemma live_extends_perform (q : Live.State W) r : live_extends q (Live.perform q r).
Proof. exists [Live.Registers r]. by destruct r. Qed.

Lemma live_extends_performs regs (q : Live.State W) :
  live_extends q (foldl Live.perform q regs).
Proof.
  revert q. induction regs as [|r regs IH]; intros q; [apply live_extends_refl|].
  cbn [foldl]. eapply live_extends_trans; [apply live_extends_perform|apply IH].
Qed.

Lemma live_extends_call (g : Live.Handler W) ev (q : Live.State W) :
  live_extends q (snd (Live.call g ev q)).
Proof.
  unfold Live.call.
  destruct (Live.handler_call g ev _) as [[r w] regs].
  set (q1 := Live.set_world w (Live.observe (Live.Enter g ev) q)).
  assert (H1 : live_extends q q1) by (exists [Live.Enter g ev]; done).
  pose proof (live_extends_performs regs q1) as H2.
  pose proof (live_extends_trans _ _ _ H1 H2) as H3.
  destruct r as [[]|e|]; cbn [snd]; [| |done].
  - eapply live_extends_trans; [exact H3|]. exists [Live.Leave g None]. done.
  - eapply live_extends_trans; [exact H3|]. exists [Live.Leave g (Some e)]. done.
Qed.

Lemma live_extends_invoke_guarded record ev (g : Live.Handler W) (q : Live.State W) :
  live_extends q (snd (Live.invoke_guarded record ev g q)).
Proof.
  unfold Live.invoke_guarded.
  assert (Hifb : forall (b : bool) (x : Res unit * Live.State W), (if b then x else x) = x)
    by (by intros []).
  rewrite Hifb. pose proof (live_extends_call g ev q) as Hc.
  destruct (Live.call g ev q) as [[[]|e|] q1]; cbn [snd] in *; try done.
  destruct (is_Exception e); [|done].
  destruct (Live.handler_name g); [|done].
  destruct (Live.handler_format g e) as [[]| |]; cbn [snd]; [|done..].
  eapply live_extends_trans; [exact Hc|apply live_extends_logger].
Qed.

Lemma live_extends_loop fuel (live : Live.State W -> list (Live.Handler W)) body :
  (forall g q, live_extends q (snd (body g q))) ->
  forall i q r q',
    Live.for_each_live fuel live body i q = Some (r, q') -> live_extends q q'.
Proof.
  intros Hbody. induction fuel as [|fuel IH]; intros i q r q' Hrun; [done|].
  cbn [Live.for_each_live] in Hrun.
  destruct (live q !! i) as [g|].
  - specialize (Hbody g q).
    destruct (body g q) as [[[]|e|] q1]; cbn [snd] in Hbody.
    + eapply live_extends_trans; [exact Hbody|]. by eapply IH.
    + by injection Hrun as <- <-.
    + by injection Hrun as <- <-.
  - injection Hrun as <- <-. apply live_extends_refl.
Qed.

Lemma live_extends_process_event fuel ev (q : Live.State W) r q' :
  Live.process_event fuel ev q = Some (r, q') -> live_extends q q'.
Proof.
  unfold Live.process_event.
  destruct (py_get (author ev) "name" (PStr "Unknown")) as [n|e|]; cbv zeta;
    [|intros [= <- <-]; apply live_extends_refl..].
  set (q0 := Live.logger _ q).
  assert (H0 : live_extends q q0) by apply live_extends_logger.
  destruct (hashable (event ev)); [|by intros [= <- <-]].
  destruct (Live.for_each_live fuel (Live.keyed_list (event ev) q0) _ 0 q0)
    as [[r1 q1]|] eqn:E1; [|done].
  apply (live_extends_loop _ _ _ (live_extends_invoke_guarded ErrorHandler ev)) in E1.
  pose proof (live_extends_trans _ _ _ H0 E1) as H1.
  destruct r1 as [[]|e|]; [|by intros [= <- <-]..].
  intros E2.
  apply (live_extends_loop _ _ _ (live_extends_invoke_guarded ErrorGlobalHandler ev)) in E2.
  by eapply live_extends_trans.
Qed.

(** *** The two embeddings of dispatch agree *)

(** On handlers that do not call back, the loop body of the second
    embedding does what that of the first does. *)
Lemma live_invoke_guarded_agrees record ev h s :
  Live.invoke_guarded record ev (live_handler h) (live_state s)
    = (fst (invoke_guarded record ev h s),
       live_state (snd (invoke_guarded record ev h s))).
Proof.
  rewrite invoke_guarded_run. unfold Live.invoke_guarded, Live.call.
  assert (Hifb : forall (b : bool) (x : Res unit * Live.State W), (if b then x else x) = x)
    by (by intros []).
  rewrite Hifb. cbn [Live.handler_call live_handler Live.st_world Live.observe live_state].
  destruct (handler_call h ev (st_world s)) as [[[]|e|] w]; cbn [foldl fst snd].
  - unfold live_state, left_state, bracket, Live.observe, Live.set_world. cbn.
    rewrite !fmap_app, <- !app_assoc. done.
  - cbn [Live.handler_name Live.handler_format live_handler].
    destruct (is_Exception e); [destruct (handler_name h); [destruct (handler_format h e)|]|];
      unfold live_state, left_state, bracket, Live.observe, Live.set_world, Live.logger;
      cbn; rewrite !fmap_app, <- !app_assoc; done.
  - unfold live_state, Live.observe, Live.set_world. cbn. by rewrite fmap_app.
Qed.

Lemma invoke_guarded_processor record ev h s :
  st_processor (snd (invoke_guarded record ev h s)) = st_processor s.
Proof.
  pose proof (preserves_stage record ev [h] s) as [Hp _].
  cbn [for_each] in Hp. unfold bind, ret in Hp.
  by destruct (invoke_guarded record ev h s) as [[[]|e|] s1].
Qed.

(** A loop of the second embedding over a list of such handlers is the
    loop of the first over that list, when it is allowed a step more than
    there are handlers left. *)
Lemma live_loop_agrees record ev fuel (live : Live.State W -> list (Live.Handler W)) l p :
  (forall s, st_processor s = p -> live (live_state s) = live_handler <$> l) ->
  forall rest done s,
    l = done ++ rest -> st_processor s = p -> length rest < fuel ->
    Live.for_each_live fuel live (Live.invoke_guarded record ev) (length done) (live_state s)
      = Some (fst (for_each rest (invoke_guarded record ev) s),
              live_state (snd (for_each rest (invoke_guarded record ev) s))).
Proof.
  intros Hlive. induction fuel as [|fuel IH]; intros rest done s Hl Hp Hfuel; [lia|].
  cbn [Live.for_each_live]. rewrite (Hlive s Hp), Hl, fmap_app.
  rewrite lookup_app_r by (by rewrite length_fmap).
  rewrite length_fmap, Nat.sub_diag.
  destruct rest as [|h rest]; [done|].
  cbn [fmap list_fmap lookup list_lookup for_each]. unfold bind.
  rewrite live_invoke_guarded_agrees.
  pose proof (invoke_guarded_processor record ev h s) as Hp1.
  destruct (invoke_guarded record ev h s) as [[[]|e|] s1]; cbn [fst snd] in *; [|done..].
  assert (Hlen : length (done ++ [h]) = S (length done))
    by (rewrite length_app; cbn; lia).
  rewrite <- Hlen. apply IH.
  - by rewrite <- app_assoc.
  - by rewrite Hp1.
  - cbn in Hfuel. lia.
Qed.

(** Dispatch in the second embedding, from a state whose handlers do not
    call back, is dispatch in the first, when it is allowed a step more
    than the dispatch sequence is long. *)
Lemma live_process_event_agrees ev s fuel :
  length (dispatch_sequence ev (st_processor s)) < fuel ->
  Live.process_event fuel ev (live_state s)
    = Some (fst (process_event ev s), live_state (snd (process_event ev s))).
Proof.
  intros Hfuel. unfold dispatch_sequence in Hfuel. rewrite length_app in Hfuel.
  unfold Live.process_event.
  destruct (author ev) as [| | | | | |a] eqn:Ha;
    try (unfold process_event, bind, lift, py_get; rewrite Ha; done).
  cbn [py_get]. cbv zeta.
  destruct (hashable (event ev)) eqn:Hh.
  - rewrite (process_event_stages ev a s Ha Hh).
    set (s0 := set_log _ s).
    change (Live.logger _ (live_state s)) with (live_state s0).
    unfold bind.
    assert (Hk : forall s1, st_processor s1 = st_processor s ->
              Live.keyed_list (event ev) (live_state s0) (live_state s1)
                = live_handler <$> keyed_handlers (event ev) (st_processor s)).
    { intros s1 Hp1. unfold Live.keyed_list, keyed_handlers, handlers_for.
      destruct (event ev) as [| | | |k| |]; try done.
      subst s0. cbn. rewrite lookup_fmap.
      destruct (_handlers (st_processor s) !! k) as [l|] eqn:E; cbn; [|done].
      by rewrite Hp1, lookup_fmap, E. }
    pose proof (live_loop_agrees ErrorHandler ev fuel _ _ (st_processor s) Hk
                  (keyed_handlers (event ev) (st_processor s)) [] s0 eq_refl eq_refl
                  ltac:(lia)) as Hloop1.
    cbn [length] in Hloop1. rewrite Hloop1.
    pose proof (preserves_stage ErrorHandler ev
                  (keyed_handlers (event ev) (st_processor s)) s0) as [Hp1 _].
    destruct (for_each _ (invoke_guarded ErrorHandler ev) s0) as [[[]|e|] s1];
      cbn [fst snd] in *; [|done..].
    assert (Hg : forall s2, st_processor s2 = st_processor s ->
              Live._global_handlers (Live.st_processor (live_state s2))
                = live_handler <$> _global_handlers (st_processor s))
      by (intros s2 Hp2; cbn; by rewrite Hp2).
    apply (live_loop_agrees ErrorGlobalHandler ev fuel _ _ (st_processor s) Hg
             (_global_handlers (st_processor s)) [] s1 eq_refl Hp1); lia.
  - unfold process_event, bind, lift, logger_info, handlers_get, py_get. rewrite Ha.
    destruct (event ev); done.
Qed.

(* ===================================================================== *)
(** ** The claims                                                         *)
(* ===================================================================== *)

(** C1 (as the code has it).  Take a registry keyed by strings and
    handlers that register no handler while they run.  For every event and
    every such registry state, [process_event] enters handlers of the
    dispatch sequence only (the handlers registered for the kind of the
    event, then the global ones), in registration order and one at a time: what it does is one complete
    invocation (entered with the event, then left) of each handler of a
    prefix of that sequence, in order, and after them at most the next
    handler of the sequence, entered and never left.  So a handler
    registered before another for the same kind is left before the other is
    entered, and every keyed handler is left before the first global one is
    entered.  The prefix is the whole sequence, and [process_event] returns,
    when the author of the event is a mapping, its kind can be hashed and
    the handlers of the sequence are well behaved: each comes back and
    fails only with errors deriving from [Exception] that can be formatted,
    and has a [__name__] if it can fail. *)
Theorem process_event_order ev s :
  exists pre rs tail,
    length rs = length pre /\
    st_trace (snd (process_event ev s)) = st_trace s ++ brackets ev pre rs ++ tail /\
    ((tail = [] /\ pre `prefix_of` dispatch_sequence ev (st_processor s)) \/
     (exists h, tail = [Enter h ev] /\
                (pre ++ [h]) `prefix_of` dispatch_sequence ev (st_processor s))) /\
    (is_dict (author ev) = true -> hashable (event ev) = true ->
     Forall well_behaved (dispatch_sequence ev (st_processor s)) ->
     fst (process_event ev s) = Done tt /\
     pre = dispatch_sequence ev (st_processor s) /\ tail = []).
Proof.
  destruct (process_event_shape ev s) as (pre & rs & tail & Hlen & Ht & Hsh & Hall).
  exists pre, rs, tail. refine (conj Hlen (conj Ht (conj Hsh _))).
  intros Hd Hh Hwb. apply Forall_app in Hwb as [Hwk Hwg].
  destruct (author ev) as [| | | | | |a] eqn:Ha; try done.
  destruct (process_event_well_behaved ev a s Ha Hh Hwk Hwg) as (rk & rg & s' & Hrun & _).
  rewrite Hrun in Hall |- *. split; [done|]. by apply (Hall ()).
Qed.

(** C2 (as the code has it).  Take a registry keyed by strings and
    handlers that register no handler while they run, an event whose author
    is a mapping and whose kind can be hashed, and any handler [h] of the
    dispatch sequence (the handlers of the kind, then the global ones).  If the handlers
    before [h] in that sequence are well behaved, so that whichever of them
    fail do so with an error deriving from [Exception] that can be
    formatted and have a [__name__], then [h] is entered with the same
    event, right after those handlers and whatever [h] and the handlers
    after it do. *)
Theorem process_event_isolates_failures ev a s pre h post :
  author ev = PDict a -> hashable (event ev) = true ->
  dispatch_sequence ev (st_processor s) = pre ++ h :: post ->
  Forall well_behaved pre ->
  exists t1 t2,
    st_trace (snd (process_event ev s)) = st_trace s ++ t1 ++ Enter h ev :: t2 /\
    invoked t1 = pre.
Proof. apply process_event_reaches. Qed.

(** C3 (as the code has it).  For an event whose author is a mapping and
    whose kind can be hashed, and a registry keyed by strings whose handlers
    for that kind and whose global handlers are all well behaved and
    register no handler while they run, [process_event] returns normally: no failure reaches its caller, and for every handler that
    raised there is an error record with the handler's name and the error,
    written by the loop the handler belongs to. *)
Theorem process_event_absorbs_failures ev a s :
  author ev = PDict a -> hashable (event ev) = true ->
  Forall well_behaved (dispatch_sequence ev (st_processor s)) ->
  exists rk rg s',
    process_event ev s = (Done tt, s') /\
    st_trace s' = st_trace s
      ++ brackets ev (keyed_handlers (event ev) (st_processor s)) rk
      ++ brackets ev (_global_handlers (st_processor s)) rg /\
    st_log s' = st_log s
      ++ InfoProcessing (event ev) (default (PStr "Unknown") (a !! "name"))
      :: error_records ErrorHandler (keyed_handlers (event ev) (st_processor s)) rk
      ++ error_records ErrorGlobalHandler (_global_handlers (st_processor s)) rg /\
    (forall h e,
       Leave h (Some e) ∈ brackets ev (keyed_handlers (event ev) (st_processor s)) rk ->
       exists n, handler_name h = Some n /\
         ErrorHandler n e
           ∈ error_records ErrorHandler (keyed_handlers (event ev) (st_processor s)) rk) /\
    (forall h e, Leave h (Some e) ∈ brackets ev (_global_handlers (st_processor s)) rg ->
       exists n, handler_name h = Some n /\
         ErrorGlobalHandler n e
           ∈ error_records ErrorGlobalHandler (_global_handlers (st_processor s)) rg).
Proof.
  intros Ha Hh Hwb. apply Forall_app in Hwb as [Hwk Hwg].
  destruct (process_event_well_behaved ev a s Ha Hh Hwk Hwg)
    as (rk & rg & s' & Hrun & _ & _ & Ht & Hl & Hek & Heg).
  exists rk, rg, s'. repeat split; done.
Qed.

(** C4 (as the code has it).  For every payload that is a mapping whose
    ["data"] entry is absent or a mapping, [from_payload] returns an event
    and raises nothing, and a missing field gives its default: the empty
    string for ["event"], the empty mapping for ["data"] and for the
    ["author"] of the data. *)
Theorem from_payload_succeeds (d : gmap string pyval) s :
  data_absent_or_dict d = true ->
  exists ev,
    from_payload (PDict d) s = (Done ev, s) /\
    (d !! "event" = None -> event ev = PStr "") /\
    (d !! "data" = None -> data ev = PDict ∅ /\ author ev = PDict ∅) /\
    (forall m, d !! "data" = Some (PDict m) -> m !! "author" = None ->
       author ev = PDict ∅).
Proof.
  unfold data_absent_or_dict. intros Hd. rewrite from_payload_run.
  destruct (default (PDict ∅) (d !! "data")) as [| | | | | |m] eqn:E; try done.
  eexists. split; [done|]. cbn. refine (conj _ (conj _ _)).
  - by intros ->.
  - intros Hn. rewrite Hn in E. cbn in E. injection E as <-. done.
  - intros m' Hm' Ha. rewrite Hm' in E. cbn in E. injection E as <-. by rewrite Ha.
Qed.

(** C5 (as the code has it).  For every payload that is a mapping whose
    ["data"] entry is absent or a mapping, the event [from_payload] returns
    has: as kind the ["event"] entry when there is one, whatever its type,
    and the empty string otherwise; as data the ["data"] entry when there is
    one and the empty mapping otherwise; as author the ["author"] entry of
    the data when there is one, whatever its type, and the empty mapping
    otherwise. *)
Theorem from_payload_fields (d : gmap string pyval) s :
  data_absent_or_dict d = true ->
  exists ev,
    from_payload (PDict d) s = (Done ev, s) /\
    event ev = default (PStr "") (d !! "event") /\
    data ev = default (PDict ∅) (d !! "data") /\
    author ev = author_of (data ev).
Proof.
  unfold data_absent_or_dict. intros Hd. rewrite from_payload_run.
  destruct (default (PDict ∅) (d !! "data")) as [| | | | | |m] eqn:E; try done.
  eexists. split; [done|]. by cbn.
Qed.


(** C7 (as the code has it).  What the endpoint answers, by the outcome of
    decoding the body.  When decoding raises [JSONDecodeError] the answer is
    status 400 with detail "Invalid JSON", no task is scheduled and no
    handler is entered, by the endpoint or after it.  When the body decodes
    to a mapping whose ["data"] entry is absent or a mapping, the answer is
    status 200 with the message "Webhook processed successfully" and the
    dispatch of the normalized event is scheduled; the answer does not
    depend on what the handlers then do.  When the body decodes to anything
    else the answer is status 500. *)
Theorem webhook_handler_outcome request s :
  match json request with
  | Raised e =>
      if is_JSONDecodeError e
      then webhook_handler request s =
             (Raised (HTTPException 400 "Invalid JSON"),
              set_log (st_log s ++ [ErrorInvalidJSON]) s) /\
           fst (handle_request request s) = Raised (HTTPException 400 "Invalid JSON") /\
           st_tasks (snd (handle_request request s)) = [] /\
           st_trace (snd (handle_request request s)) = st_trace s
      else if is_Exception e
      then fst (webhook_handler request s)
             = Raised (HTTPException 500 "Internal server error")
      else fst (webhook_handler request s) = Raised e
  | Done payload =>
      if normalizable payload
      then exists ev s1,
             from_payload payload s = (Done ev, s) /\
             webhook_handler request s
               = (Done (JSONResponse 200 success_content), s1) /\
             st_tasks s1 = st_tasks s ++ [ev] /\
             st_trace s1 = st_trace s /\
             fst (handle_request request s) = Done (JSONResponse 200 success_content)
      else fst (webhook_handler request s)
             = Raised (HTTPException 500 "Internal server error") /\
           st_tasks (snd (webhook_handler request s)) = st_tasks s /\
           st_trace (snd (webhook_handler request s)) = st_trace s
  | Hung => fst (webhook_handler request s) = Hung
  end.
Proof.
  destruct (json request) as [payload|e|] eqn:E.
  - unfold handle_request. rewrite !(webhook_handler_decoded request payload _ E).
    destruct payload as [| | | | | |d]; try done. cbn [normalizable].
    rewrite !from_payload_run. unfold data_absent_or_dict.
    destruct (default (PDict ∅) (d !! "data")); try done.
    cbn. eauto 10.
  - unfold handle_request. rewrite !(webhook_handler_decode_error request e _ E).
    destruct (is_JSONDecodeError e); [done|]. by destruct (is_Exception e).
  - unfold webhook_handler, try_except, bind, lift. by rewrite E.
Qed.

(** C8.  For every kind, the empty string included, and every handler,
    [register_handler] returns normally and leaves under the kind the
    sequence that was registered for it (the empty one if there was none)
    with the handler added at its end; registering the same handler again
    adds it again; the sequence of a kind with no registration is empty;
    and reading a sequence with [self._handlers.get] changes nothing. *)
Theorem register_handler_appends k h s :
  exists s',
    register_handler k h s = (Done tt, s') /\
    _handlers (st_processor s') !! k = Some (handlers_for k (st_processor s) ++ [h]) /\
    handlers_for k (st_processor s') = handlers_for k (st_processor s) ++ [h] /\
    handlers_for k (st_processor (snd (register_handler k h s')))
      = handlers_for k (st_processor s) ++ [h; h] /\
    (forall k', _handlers (st_processor s) !! k' = None ->
       handlers_for k' (st_processor s) = []) /\
    handlers_for k (new_processor (W:=W)) = [] /\
    handlers_get (PStr k) s' = (Done (handlers_for k (st_processor s')), s').
Proof.
  eexists. split; [apply register_handler_run|].
  rewrite register_handler_run. unfold handlers_for. cbn.
  rewrite !lookup_insert_eq. cbn. rewrite <- app_assoc.
  refine (conj eq_refl (conj eq_refl (conj eq_refl (conj _ (conj eq_refl _))))).
  - by intros k' ->.
  - unfold handlers_for. cbn. by rewrite lookup_insert_eq.
Qed.

(** C9.  [from_payload] either raises [AttributeError], which it does on the
    payloads that are no mapping or whose ["data"] entry is no mapping, or
    returns an event whose timestamp is the reading of the server's clock,
    whatever the payload holds. *)
Theorem from_payload_timestamp payload s :
  match from_payload payload s with
  | (Done ev, s') => normalizable payload = true /\ timestamp ev = st_clock s /\ s' = s
  | (Raised e, s') => normalizable payload = false /\ e = AttributeError /\ s' = s
  | (Hung, _) => False
  end.
Proof.
  destruct payload as [| | | | | |d]; try done.
  rewrite from_payload_run. cbn [normalizable]. unfold data_absent_or_dict.
  by destruct (default (PDict ∅) (d !! "data")).
Qed.

(** C10 (as the code has it).  Registering a handler for a kind leaves the
    sequence of every other kind and the global sequence as they were;
    registering a global handler leaves every keyed sequence as it was; and
    [process_event] writes nothing to the registry itself: however a
    dispatch ends, the processor after it is the processor before it with
    the registrations applied that the handlers it ran made while they
    ran, in the order they made them, and so is as it was when they made
    none.  When no handler the processor holds ever registers a handler,
    the loops of the dispatch take finitely many steps and the processor is
    as it was. *)
Theorem registry_frame k (g : Live.Handler W) ev fuel (q : Live.State W) :
  (forall k', k' <> k ->
     Live._handlers (Live.st_processor (Live.register_handler k g q)) !! k'
       = Live._handlers (Live.st_processor q) !! k') /\
  Live._global_handlers (Live.st_processor (Live.register_handler k g q))
    = Live._global_handlers (Live.st_processor q) /\
  Live._handlers (Live.st_processor (Live.register_global_handler g q))
    = Live._handlers (Live.st_processor q) /\
  (forall r q', Live.process_event fuel ev q = Some (r, q') ->
     exists t,
       Live.st_trace q' = Live.st_trace q ++ t /\
       Live.st_processor q'
         = foldl Live.apply_registration (Live.st_processor q) (Live.registrations t)) /\
  ((forall g', Live.holds (Live.st_processor q) g' -> Live.quiet g') ->
   exists fuel' r q',
     Live.process_event fuel' ev q = Some (r, q') /\
     Live.st_processor q' = Live.st_processor q).
Proof.
  refine (conj _ (conj eq_refl (conj eq_refl (conj _ _)))).
  - intros k' Hne. unfold Live.register_handler, Live.add_handler. cbn.
    rewrite lookup_insert_ne by done.
    destruct (Live._handlers (Live.st_processor q) !! k); [done|].
    by rewrite lookup_insert_ne.
  - intros r q'. apply live_extends_process_event.
  - intros Hq.
    assert (Hseq : Forall Live.quiet (Live.dispatch_sequence ev (Live.st_processor q))).
    { apply Forall_forall. intros g' Hin. apply Hq. unfold Live.dispatch_sequence in Hin.
      apply elem_of_app in Hin as [Hin|Hin]; [|by right].
      destruct (event ev) as [| | | |k0| |]; try by apply elem_of_nil in Hin.
      destruct (Live._handlers (Live.st_processor q) !! k0) as [l|] eqn:E;
        [|by apply elem_of_nil in Hin].
      left. by exists k0, l. }
    destruct (live_process_event_quiet ev
                (S (length (Live.dispatch_sequence ev (Live.st_processor q)))) q Hseq)
      as [Hframe Hend].
    destruct Hend as [[r q'] Hrun]; [lia|].
    exists (S (length (Live.dispatch_sequence ev (Live.st_processor q)))), r, q'.
    split; [exact Hrun|]. by apply (Hframe r q').
Qed.

End Properties.

(* ===================================================================== *)
(** ** The scenarios of the specification, run                            *)
(* ===================================================================== *)

Example comment_normalized :
  from_payload comment_payload start = (Done comment_event, start).
Proof. run. Qed.

Example empty_normalized :
  from_payload empty_payload start = (Done empty_event, start).
Proof. run. Qed.

(** The keyed handler fails, the next keyed one and the global one still
    run, in this order, and dispatch returns. *)
Example comment_dispatched :
  fst (process_event comment_event two_then_global) = Done tt /\
  st_world (snd (process_event comment_event two_then_global)) = ["a"; "b"; "g"] /\
  invoked (st_trace (snd (process_event comment_event two_then_global)))
    = [failing "a"; returning_async "b"; returning "g"].
Proof. repeat split; run. Qed.

(** Registering the same handler twice keeps both, in order. *)
Example duplicates_kept :
  handlers_for "card_moved" (st_processor twice) = [returning "k"; returning "k"].
Proof. run. Qed.

(** The decorator registers the function and gives it back unchanged. *)
Example decorator_returns_function :
  fst (on "card_moved" (returning "k") start) = Done (returning "k") /\
  handlers_for "card_moved" (st_processor (snd (on "card_moved" (returning "k") start)))
    = [returning "k"] /\
  fst (on_any (returning "g") start) = Done (returning "g") /\
  _global_handlers (st_processor (snd (on_any (returning "g") start))) = [returning "g"].
Proof. repeat split; run. Qed.

(** An event with no kind, with a handler registered for another kind. *)
Example empty_dispatched :
  st_world (snd (process_event empty_event only_global)) = ["g"].
Proof. run. Qed.

(** The ways dispatch stops short that the theorems on it rule out by
    their premises. *)

(** [{"data":{"author":"Alice"}}]: the event has a string for author and
    the first line of [process_event] raises. *)
Example string_author_stops_dispatch :
  from_payload string_author_payload two_then_global
    = (Done string_author_event, two_then_global) /\
  process_event string_author_event only_global = (Raised AttributeError, only_global).
Proof. split; run. Qed.

(** [{"event":[]}]: an unhashable kind makes the lookup raise. *)
Example list_kind_stops_dispatch :
  fst (process_event list_kind_event only_global) = Raised TypeError /\
  st_world (snd (process_event list_kind_event only_global)) = [].
Proof. split; run. Qed.

(** A failing callable with no [__name__]: writing the error record raises
    in its turn and the handler after it is not entered. *)
Example nameless_failure_stops_dispatch :
  fst (process_event comment_event partial_then_b) = Raised AttributeError /\
  st_world (snd (process_event comment_event partial_then_b)) = ["a"].
Proof. split; run. Qed.

(** A named handler whose error cannot be formatted: the f-string of the
    except block raises and the handlers after it are not entered. *)
Example unprintable_failure_stops_dispatch :
  fst (process_event comment_event unprintable_then_b)
    = Raised (OtherException "RuntimeError") /\
  st_world (snd (process_event comment_event unprintable_then_b)) = ["a"].
Proof. split; run. Qed.

(** A handler that never comes back. *)
Example hanging_handler_stops_dispatch :
  fst (process_event comment_event hanging_then_b) = Hung /\
  invoked (st_trace (snd (process_event comment_event hanging_then_b))) = [hanging "a"].
Proof. split; run. Qed.

(** The body [[]] decodes, and is answered with 500. *)
Example list_body_answer :
  fst (webhook_handler (mkRequest (Done (PList []))) start)
    = Raised (HTTPException 500 "Internal server error").
Proof. run. Qed.

(** A payload carrying a time of its own gets the server's. *)
Example dated_payload_timestamp :
  exists ev, from_payload dated_payload start = (Done ev, start) /\
             timestamp ev = st_clock start.
Proof. eexists. split; run. Qed.

(* ===================================================================== *)
(** ** The theorems at concrete inputs                                    *)
(* ===================================================================== *)

Lemma process_event_order_witness :
  exists pre rs tail,
    length rs = length pre /\
    st_trace (snd (process_event comment_event two_then_global))
      = st_trace two_then_global ++ brackets comment_event pre rs ++ tail /\
    fst (process_event comment_event two_then_global) = Done tt /\
    pre = dispatch_sequence comment_event (st_processor two_then_global) /\
    tail = [].
Proof.
  destruct (process_event_order comment_event two_then_global)
    as (pre & rs & tail & Hlen & Ht & _ & Hall).
  exists pre, rs, tail. refine (conj Hlen (conj Ht _)).
  apply Hall.
  - reflexivity.
  - reflexivity.
  - discharge_well_behaved.
Defined.

Lemma process_event_isolates_failures_witness :
  exists t1 t2,
    st_trace (snd (process_event comment_event two_then_global))
      = st_trace two_then_global ++ t1 ++ Enter (returning "g") comment_event :: t2 /\
    invoked t1 = [failing "a"; returning_async "b"].
Proof.
  apply (process_event_isolates_failures comment_event alice_fields
           two_then_global [failing "a"; returning_async "b"] (returning "g") []).
  - reflexivity.
  - reflexivity.
  - vm_compute. reflexivity.
  - discharge_well_behaved.
Defined.

Lemma process_event_absorbs_failures_witness :
  exists rk rg s',
    process_event comment_event two_then_global = (Done tt, s') /\
    st_trace s' = st_trace two_then_global
      ++ brackets comment_event
           (keyed_handlers (event comment_event) (st_processor two_then_global)) rk
      ++ brackets comment_event (_global_handlers (st_processor two_then_global)) rg /\
    st_log s' = st_log two_then_global
      ++ InfoProcessing (event comment_event)
           (default (PStr "Unknown") (alice_fields !! "name"))
      :: error_records ErrorHandler
           (keyed_handlers (event comment_event) (st_processor two_then_global)) rk
      ++ error_records ErrorGlobalHandler (_global_handlers (st_processor two_then_global)) rg /\
    (forall h e,
       Leave h (Some e)
         ∈ brackets comment_event
             (keyed_handlers (event comment_event) (st_processor two_then_global)) rk ->
       exists n, handler_name h = Some n /\
         ErrorHandler n e
           ∈ error_records ErrorHandler
               (keyed_handlers (event comment_event) (st_processor two_then_global)) rk) /\
    (forall h e,
       Leave h (Some e)
         ∈ brackets comment_event (_global_handlers (st_processor two_then_global)) rg ->
       exists n, handler_name h = Some n /\
         ErrorGlobalHandler n e
           ∈ error_records ErrorGlobalHandler
               (_global_handlers (st_processor two_then_global)) rg).
Proof.
  apply (process_event_absorbs_failures comment_event alice_fields two_then_global).
  - reflexivity.
  - reflexivity.
  - discharge_well_behaved.
Defined.

Lemma from_payload_succeeds_witness :
  exists ev,
    from_payload (PDict ∅) start = (Done ev, start) /\
    ((∅ : gmap string pyval) !! "event" = None -> event ev = PStr "") /\
    ((∅ : gmap string pyval) !! "data" = None -> data ev = PDict ∅ /\ author ev = PDict ∅) /\
    (forall m, (∅ : gmap string pyval) !! "data" = Some (PDict m) ->
       m !! "author" = None -> author ev = PDict ∅).
Proof.
  apply (from_payload_succeeds ∅ start). vm_compute. reflexivity.
Defined.

Lemma from_payload_fields_witness :
  exists ev,
    from_payload (PDict comment_fields) start = (Done ev, start) /\
    event ev = default (PStr "") (comment_fields !! "event") /\
    data ev = default (PDict ∅) (comment_fields !! "data") /\
    author ev = author_of (data ev).
Proof.
  apply (from_payload_fields comment_fields start). vm_compute. reflexivity.
Defined.


Lemma register_handler_appends_witness :
  exists s',
    register_handler "" (returning "k") start = (Done tt, s') /\
    _handlers (st_processor s') !! "" = Some [returning "k"] /\
    handlers_for "" (st_processor s') = [returning "k"].
Proof.
  destruct (register_handler_appends "" (returning "k") start)
    as (s' & Hrun & Hmap & Hfor & _).
  exists s'. split; [exact Hrun|]. split; [exact Hmap|exact Hfor].
Defined.

Lemma registry_frame_witness :
  (exists q',
     Live.process_event 3 Live.card_moved_event Live.with_registrar = Some (Done tt, q') /\
     exists t,
       Live.st_trace q' = Live.st_trace Live.with_registrar ++ t /\
       Live.st_processor q'
         = foldl Live.apply_registration (Live.st_processor Live.with_registrar)
             (Live.registrations t)) /\
  (exists fuel' r q',
     Live.process_event fuel' Live.card_moved_event Live.with_quiet_handlers
       = Some (r, q') /\
     Live.st_processor q' = Live.st_processor Live.with_quiet_handlers) /\
  Live._handlers
      (Live.st_processor (Live.register_handler "card_created" Live.late
                            Live.with_quiet_handlers)) !! "card_moved"
    = Live._handlers (Live.st_processor Live.with_quiet_handlers) !! "card_moved".
Proof.
  split.
  - destruct (registry_frame "card_created" Live.late Live.card_moved_event 3
                Live.with_registrar) as (_ & _ & _ & Hframe & _).
    eexists. split; [vm_compute; reflexivity|].
    apply (Hframe (Done tt)). vm_compute. reflexivity.
  - destruct (registry_frame "card_created" Live.late Live.card_moved_event 3
                Live.with_quiet_handlers) as (Hother & _ & _ & _ & Hquiet).
    split; [|apply Hother; discriminate].
    apply Hquiet. intros g' [(k & hs & Hk & Hin)|Hin].
    + assert (Hmap : Live._handlers (Live.st_processor Live.with_quiet_handlers)
                     = {["card_moved" := [Live.late]]}) by (vm_compute; reflexivity).
      rewrite Hmap in Hk. apply lookup_singleton_Some in Hk as [_ <-].
      apply list_elem_of_singleton in Hin as ->. intros ? ?. reflexivity.
    + vm_compute in Hin. apply list_elem_of_singleton in Hin as ->.
      intros ? ?. reflexivity.
Defined.

(* ===================================================================== *)
(** ** Where the written claims and the code part                        *)
(* ===================================================================== *)

(** C1 as written fails: [a] then [b] are registered for the kind and [g]
    globally; [a] calls [sys.exit], which [except Exception] lets through,
    so dispatch ends there and neither [b] nor [g] is entered. *)
Lemma process_event_order_counterexample :
  handlers_for "comment_added" (st_processor exit_then_b) = [exiting "a"; returning "b"] /\
  _global_handlers (st_processor exit_then_b) = [returning "g"] /\
  fst (process_event comment_event exit_then_b) = Raised SystemExit /\
  invoked (st_trace (snd (process_event comment_event exit_then_b))) = [exiting "a"] /\
  invoked (st_trace (snd (process_event comment_event exit_then_b)))
    <> handlers_for "comment_added" (st_processor exit_then_b)
       ++ _global_handlers (st_processor exit_then_b).
Proof.
  repeat split; try run.
  vm_compute. intros H. discriminate H.
Qed.

(** C2 as written fails: the coroutine [a] registered for the kind fails
    with [asyncio.CancelledError]; the global handler [g] comes after it in
    the dispatch sequence and is never entered. *)
Lemma process_event_isolates_failures_counterexample :
  handlers_for "comment_added" (st_processor cancelled_then_g)
    ++ _global_handlers (st_processor cancelled_then_g)
    = [cancelled "a"; returning "g"] /\
  fst (handler_call (cancelled "a") comment_event []) = Raised CancelledError /\
  invoked (st_trace (snd (process_event comment_event cancelled_then_g))) = [cancelled "a"] /\
  st_world (snd (process_event comment_event cancelled_then_g)) = ["a"] /\
  ~ (exists t1 t2,
       st_trace (snd (process_event comment_event cancelled_then_g))
         = t1 ++ Enter (returning "g") comment_event :: t2).
Proof.
  repeat split; try run.
  intros (t1 & t2 & H).
  assert (Hin : returning "g"
                  ∈ invoked (st_trace (snd (process_event comment_event cancelled_then_g)))).
  { rewrite H, invoked_app. apply elem_of_app. right. cbn. apply elem_of_cons. by left. }
  vm_compute in Hin.
  apply elem_of_cons in Hin as [Hin|Hin]; [discriminate Hin|].
  by apply elem_of_nil in Hin.
Qed.

(** C3 as written fails: a global handler calls [sys.exit] and
    [process_event] raises [SystemExit] to its caller. *)
Lemma process_event_absorbs_failures_counterexample :
  _global_handlers (st_processor exiting_global) = [exiting "g"] /\
  fst (process_event empty_event exiting_global) = Raised SystemExit /\
  fst (process_event empty_event exiting_global) <> Done tt.
Proof.
  repeat split; try run.
  vm_compute. intros H. discriminate H.
Qed.

(** C4 as written fails: on [{"data": 5}] the second [.get] is called on
    an [int] and [from_payload] raises [AttributeError]. *)
Lemma from_payload_succeeds_counterexample :
  from_payload numeric_data_payload start = (Raised AttributeError, start) /\
  ~ (exists ev s, from_payload numeric_data_payload start = (Done ev, s)).
Proof.
  split; [run|].
  intros (ev & s & H). vm_compute in H. discriminate H.
Qed.

(** C5 as written fails: on [{"event": 5}] the kind of the event is the
    number, not the empty string. *)
Lemma from_payload_fields_counterexample :
  exists ev,
    from_payload numeric_kind_payload start = (Done ev, start) /\
    event ev = PInt 5 /\
    event ev <> PStr "".
Proof.
  eexists. split; [run|]. split; [run|].
  vm_compute. intros H. discriminate H.
Qed.


(** C7 as written fails: the body [{"event":"card_moved","data":null}]
    decodes, normalization raises on the [None], and the answer is 500. *)
Lemma webhook_handler_outcome_counterexample :
  fst (webhook_handler (mkRequest (Done null_data_payload)) start)
    = Raised (HTTPException 500 "Internal server error") /\
  fst (webhook_handler (mkRequest (Done null_data_payload)) start)
    <> Done (JSONResponse 200 success_content) /\
  st_tasks (snd (webhook_handler (mkRequest (Done null_data_payload)) start)) = [].
Proof.
  repeat split; try run.
  vm_compute. intros H. discriminate H.
Qed.

(** C10 as written fails: a global handler registers another global
    handler when it is invoked.  The dispatch returns, the registry has one
    global handler more than before, and the second loop, which iterates
    the registry's own list, has invoked the newcomer too. *)
Lemma registry_frame_counterexample :
  exists q',
    Live.process_event 3 Live.card_moved_event Live.with_registrar = Some (Done tt, q') /\
    Live._global_handlers (Live.st_processor Live.with_registrar) = [Live.registrar] /\
    Live._global_handlers (Live.st_processor q') = [Live.registrar; Live.late] /\
    Live.invoked (Live.st_trace q') = [Live.registrar; Live.late] /\
    Live.st_processor q' <> Live.st_processor Live.with_registrar.
Proof.
  eexists. split; [vm_compute; reflexivity|].
  repeat split; try (vm_compute; reflexivity).
  intros H. apply (f_equal Live._global_handlers) in H. vm_compute in H.
  discriminate H.
Qed.

(* ===================================================================== *)
(** ** Further properties of the module                                   *)
(* ===================================================================== *)

Section Further.

Context {W : Type}.

Implicit Types (s : State W) (p : WebhookProcessor W) (h : Handler W).
Implicit Types (hs : list (Handler W)) (ev : WebhookEvent) (rs : list (option exn)).

(** *** Registration *)

(** X1.  A run of calls of [register_handler], for any mix of kinds, never
    raises, and afterwards the sequence of each kind is what it was followed
    by the handlers registered for that kind in the run, in the order of the
    calls; the global sequence is untouched. *)
Theorem registrations_keep_order (regs : list (string * Handler W)) s :
  exists s',
    for_each regs (fun r => register_handler r.1 r.2) s = (Done tt, s') /\
    (forall k, handlers_for k (st_processor s')
               = handlers_for k (st_processor s) ++ (filter (fun r => r.1 = k) regs).*2) /\
    _global_handlers (st_processor s') = _global_handlers (st_processor s) /\
    st_log s' = st_log s ++ map (fun r => InfoRegistered r.1) regs.
Proof.
  revert s. induction regs as [|[k0 h0] regs IH]; intros s.
  - exists s. cbn. rewrite app_nil_r. repeat split; try done.
    intros k. by rewrite app_nil_r.
  - cbn [for_each]. unfold bind. cbn [fst snd]. rewrite register_handler_run.
    match goal with |- context [for_each regs _ ?s1] =>
      destruct (IH s1) as (s' & Hrun & Hfor & Hglob & Hlog) end.
    exists s'. rewrite Hrun, Hglob, Hlog.
    refine (conj eq_refl (conj _ (conj eq_refl _))).
    + intros k. rewrite Hfor. unfold handlers_for at 1.
      cbn [st_processor set_log set_processor _handlers].
      rewrite filter_cons. cbn [fst]. destruct (decide (k0 = k)) as [->|Hne].
      * rewrite lookup_insert_eq. cbn. by rewrite <- app_assoc.
      * by rewrite lookup_insert_ne.
    + cbn. by rewrite <- app_assoc.
Qed.

(** X2.  A run of calls of [register_global_handler] never raises and adds
    the handlers at the end of the global sequence, in the order of the
    calls; no keyed sequence changes. *)
Theorem global_registrations_keep_order hs s :
  exists s',
    for_each hs register_global_handler s = (Done tt, s') /\
    _global_handlers (st_processor s') = _global_handlers (st_processor s) ++ hs /\
    _handlers (st_processor s') = _handlers (st_processor s) /\
    st_log s' = st_log s ++ replicate (length hs) InfoRegisteredGlobal.
Proof.
  revert s. induction hs as [|h hs IH]; intros s.
  - exists s. cbn. by rewrite !app_nil_r.
  - cbn [for_each]. unfold bind. rewrite register_global_handler_run.
    match goal with |- context [for_each hs _ ?s1] =>
      destruct (IH s1) as (s' & Hrun & Hglob & Hkeyed & Hlog) end.
    exists s'. rewrite Hrun, Hglob, Hkeyed, Hlog. cbn. by rewrite <- !app_assoc.
Qed.

(** X3.  The decorators give back the very function they were given, so
    they stack: decorating [func] with [on kb] and then with [on ka], for
    two different kinds, returns [func] and leaves [func] itself at the end
    of the sequences of both kinds. *)
Theorem stacked_decorators ka kb (func : Handler W) s :
  ka <> kb ->
  exists s',
    (func' <- on kb func ;; on ka func') s = (Done func, s') /\
    handlers_for ka (st_processor s') = handlers_for ka (st_processor s) ++ [func] /\
    handlers_for kb (st_processor s') = handlers_for kb (st_processor s) ++ [func].
Proof.
  intros Hne.
  assert (Hon : forall k (f : Handler W) s0,
            on k f s0 = (Done f, snd (register_handler k f s0))).
  { intros k f s0. unfold on, bind. by rewrite register_handler_run. }
  unfold bind at 1. rewrite !Hon, !register_handler_run. cbn [snd].
  eexists. split; [done|].
  unfold handlers_for. cbn.
  rewrite lookup_insert_eq, (lookup_insert_ne _ kb ka) by done.
  rewrite (lookup_insert_ne _ ka kb) by done. by rewrite lookup_insert_eq.
Qed.

(** *** Normalization *)

(** X4.  [from_payload] reads the ["event"] and ["data"] entries of the
    payload and nothing else: two payloads that agree on these two entries
    are normalized alike, in result and in effect. *)
Theorem from_payload_reads_two_entries (d1 d2 : gmap string pyval) s :
  d1 !! "event" = d2 !! "event" -> d1 !! "data" = d2 !! "data" ->
  from_payload (PDict d1) s = from_payload (PDict d2) s.
Proof. intros He Hd. by rewrite !from_payload_run, He, Hd. Qed.

(** *** Starting the server *)

(** X5.  In the keyword arguments [run] hands to [uvicorn.run], an entry
    given by the caller wins over the server's own, an entry the caller did
    not give is the server's ([host], [port], and ["info"] for [log_level]),
    these three keys are always there, and the records written name the
    server's own host and port whether or not the caller overrode them. *)
Theorem run_keyword_arguments (self : Server.KaitenWebhookServer)
    (kwargs : gmap string pyval) :
  (forall key v, kwargs !! key = Some v -> (Server.run self kwargs).2 !! key = Some v) /\
  (forall key, kwargs !! key = None ->
     (Server.run self kwargs).2 !! key = Server.config_kwargs self !! key) /\
  (forall key, key ∈ ["host"; "port"; "log_level"] ->
     is_Some ((Server.run self kwargs).2 !! key)) /\
  (Server.run self ∅).2
    = {[ "host" := PStr (Server.host self); "port" := PInt (Server.port self);
         "log_level" := PStr "info" ]} /\
  (Server.run self kwargs).1
    = [Server.InfoStarting (Server.host self) (Server.port self);
       Server.InfoEndpoint (Server.webhook_path self)].
Proof.
  unfold Server.run, Server.dict_update. cbn [fst snd].
  refine (conj _ (conj _ (conj _ (conj _ eq_refl)))).
  - intros key v Hk. by apply lookup_union_Some_l.
  - intros key Hk. by apply lookup_union_r.
  - intros key Hin. apply lookup_union_is_Some. right. unfold Server.config_kwargs.
    repeat (apply elem_of_cons in Hin as [->|Hin]); [| | |by apply elem_of_nil in Hin].
    + rewrite lookup_insert_eq. eauto.
    + rewrite lookup_insert_ne, lookup_insert_eq by done. eauto.
    + rewrite !lookup_insert_ne, lookup_singleton_eq by done. eauto.
  - by rewrite (left_id_L ∅ (∪)).
Qed.

(** *** Dispatch as one loop *)

(** The two loops of [process_event] are one loop over the handlers of the
    kind, then the global ones, each paired with the error record of its
    loop. *)
Local Abbreviation tagged ev :=
  (fun rh : (string -> exn -> LogRecord) * Handler W => invoke_guarded rh.1 ev rh.2).

Local Abbreviation same_event ev :=
  (fun o : Obs W => forall h' ev', o = Enter h' ev' -> ev' = ev).

Lemma for_each_map {A B : Type} (f : A -> B) (l : list A) (body : B -> M W unit) s :
  for_each (map f l) body s = for_each l (fun x => body (f x)) s.
Proof.
  revert s. induction l as [|x l IH]; intros s; [done|].
  cbn. unfold bind. destruct (body (f x) s) as [[[]|e|] s1]; auto.
Qed.

Lemma process_event_one_loop ev a s :
  author ev = PDict a ->
  process_event ev s =
    let s0 := set_log (st_log s
                ++ [InfoProcessing (event ev) (default (PStr "Unknown") (a !! "name"))]) s in
    if hashable (event ev)
    then for_each
           (map (pair ErrorHandler)
                (match event ev with
                 | PStr k => handlers_for k (st_processor s)
                 | _ => []
                 end)
            ++ map (pair ErrorGlobalHandler) (_global_handlers (st_processor s)))
           (tagged ev) s0
    else (Raised TypeError, s0).
Proof.
  intros Ha. cbv zeta.
  destruct (hashable (event ev)) eqn:Hh.
  - rewrite for_each_app. unfold bind at 1. rewrite for_each_map. cbn [fst snd].
    change (fun x : Handler W => invoke_guarded ErrorHandler ev x)
      with (invoke_guarded (W:=W) ErrorHandler ev).
    unfold process_event, bind, lift, logger_info, handlers_get, global_handlers.
    rewrite Ha. cbn [py_get].
    destruct (event ev) as [| | | |k| |]; try done; cbn [for_each ret];
      try (rewrite for_each_map; reflexivity).
    cbn [set_log st_processor].
    match goal with |- context [for_each ?l (invoke_guarded ErrorHandler ev) ?s0] =>
      destruct (stage_any ErrorHandler ev l s0) as (t & _ & _ & _ & Hp & _);
      destruct (for_each l (invoke_guarded ErrorHandler ev) s0) as [[[]|e|] s1] end;
      cbn [fst snd set_log st_processor] in *; try done.
    rewrite for_each_map, Hp. reflexivity.
  - unfold process_event, bind, lift, logger_info, handlers_get.
    rewrite Ha. cbn [py_get]. by destruct (event ev).
Qed.

(** Whatever the handlers do: the loop adds observations, all made with the
    dispatched event, of a prefix of its sequence. *)
Lemma tagged_any ev (th : list ((string -> exn -> LogRecord) * Handler W)) s :
  exists t,
    st_trace (snd (for_each th (tagged ev) s)) = st_trace s ++ t /\
    invoked t `prefix_of` th.*2 /\
    Forall (same_event ev) t.
Proof.
  assert (Hb : forall h r, Forall (same_event ev) (bracket ev h r)).
  { intros h r. repeat constructor; intros h' ev' Heq; by inversion Heq. }
  assert (He : forall h, Forall (same_event ev) [Enter h ev]).
  { intros h. repeat constructor. intros h' ev' Heq. by inversion Heq. }
  revert s. induction th as [|[rec h] th IH]; intros s.
  - exists []. cbn. rewrite app_nil_r. repeat split; done.
  - cbn [for_each fst snd]. unfold bind.
    destruct (invoke_guarded_cases rec ev h s) as (_ & _ & Hc).
    destruct (invoke_guarded rec ev h s) as [res s1]. cbn [fst snd] in Hc.
    destruct Hc as [(r & -> & Ht1)|[(e & x & -> & Ht1)|[(e & -> & Ht1)|(-> & Ht1)]]].
    + destruct (IH s1) as (t & Ht & Hpre & Hev).
      exists (bracket ev h r ++ t). rewrite Ht, Ht1, <- app_assoc.
      refine (conj eq_refl (conj _ _)); [cbn; by apply prefix_cons|].
      apply Forall_app. split; [apply Hb|done].
    + exists (bracket ev h (Some e)).
      refine (conj Ht1 (conj _ (Hb _ _))). cbn. apply prefix_cons, prefix_nil.
    + exists (bracket ev h (Some e)).
      refine (conj Ht1 (conj _ (Hb _ _))). cbn. apply prefix_cons, prefix_nil.
    + exists [Enter h ev].
      refine (conj Ht1 (conj _ (He _))). cbn. apply prefix_cons, prefix_nil.
Qed.

(** With well-behaved handlers only, the loop runs to its end, enters each
    handler once, in order, and hands each the state the one before it, failed
    or not, has left. *)
Lemma tagged_well_behaved ev (th : list ((string -> exn -> LogRecord) * Handler W)) s :
  Forall well_behaved th.*2 ->
  exists t s',
    for_each th (tagged ev) s = (Done tt, s') /\
    st_trace s' = st_trace s ++ t /\
    invoked t = th.*2 /\
    st_world s' = foldl (fun w h => snd (handler_call h ev w)) (st_world s) th.*2.
Proof.
  revert s. induction th as [|[rec h] th IH]; intros s Hwb.
  - exists [], s. cbn. by rewrite app_nil_r.
  - cbn in Hwb. apply Forall_cons in Hwb as [Hh Hwb].
    cbn [for_each fst snd]. unfold bind. rewrite invoke_guarded_run.
    specialize (Hh ev (st_world s)). cbn [fmap list_fmap foldl snd].
    destruct (handler_call h ev (st_world s)) as [[[]|e|] w]; cbn in Hh; [| |done].
    + destruct (IH (left_state ev h None w s) Hwb) as (t & s' & Hrun & Ht & Hinv & Hw).
      exists (bracket ev h None ++ t), s'. rewrite Hrun, Ht, Hw. cbn.
      rewrite <- app_assoc, Hinv. done.
    + destruct Hh as (He & [n Hn] & Hf). rewrite He, Hn, Hf. cbv zeta.
      destruct (IH (set_log (st_log s ++ [rec n e]) (left_state ev h (Some e) w s)) Hwb)
        as (t & s' & Hrun & Ht & Hinv & Hw).
      exists (bracket ev h (Some e) ++ t), s'. rewrite Hrun, Ht, Hw. cbn.
      rewrite <- app_assoc, Hinv. done.
Qed.

(** The loop ends at the first handler whose guarded invocation does not
    return, with that outcome, and enters nothing after it. *)
Lemma tagged_stops ev (pre post : list ((string -> exn -> LogRecord) * Handler W))
    rec h (r : Res unit) s :
  Forall well_behaved pre.*2 ->
  r <> Done tt ->
  (forall s1, fst (invoke_guarded rec ev h s1) = r /\
     exists tl, st_trace (snd (invoke_guarded rec ev h s1)) = st_trace s1 ++ Enter h ev :: tl /\
                invoked tl = []) ->
  fst (for_each (pre ++ (rec, h) :: post) (tagged ev) s) = r /\
  exists t,
    st_trace (snd (for_each (pre ++ (rec, h) :: post) (tagged ev) s)) = st_trace s ++ t /\
    invoked t = pre.*2 ++ [h].
Proof.
  intros Hwb Hr Hstop.
  destruct (tagged_well_behaved ev pre s Hwb) as (t & s1 & Hrun & Ht & Hinv & _).
  rewrite for_each_app, (bind_done _ _ _ _ _ Hrun). cbn [for_each fst snd]. unfold bind.
  destruct (Hstop s1) as [Hres (tl & Htl & Hitl)].
  destruct (invoke_guarded rec ev h s1) as [[[]|e|] s2]; cbn in *; subst r; try done.
  - split; [done|]. exists (t ++ Enter h ev :: tl).
    rewrite Htl, Ht, <- app_assoc. split; [done|].
    rewrite invoked_app, Hinv. cbn. by rewrite Hitl.
  - split; [done|]. exists (t ++ Enter h ev :: tl).
    rewrite Htl, Ht, <- app_assoc. split; [done|].
    rewrite invoked_app, Hinv. cbn. by rewrite Hitl.
Qed.

Lemma tagged_split (l g pre post : list (Handler W)) h :
  l ++ g = pre ++ h :: post ->
  exists tpre rec tpost,
    map (pair ErrorHandler) l ++ map (pair ErrorGlobalHandler) g
      = tpre ++ (rec, h) :: tpost /\
    tpre.*2 = pre.
Proof.
  intros Hsplit.
  assert (Hsnd : (map (pair ErrorHandler) l ++ map (pair ErrorGlobalHandler) g).*2
                 = pre ++ h :: post).
  { rewrite fmap_app, <- !list_fmap_compose, <- Hsplit.
    f_equal; apply list_fmap_id. }
  apply fmap_app_inv in Hsnd as (tpre & trest & Hpre & Hrest & Heq).
  symmetry in Hrest. apply fmap_cons_inv in Hrest as ([rec h'] & tpost & Hh & _ & ->).
  cbn in Hh. subst h'. exists tpre, rec, tpost. by split.
Qed.

Lemma tagged_snd (l g : list (Handler W)) :
  (map (pair ErrorHandler) l ++ map (pair ErrorGlobalHandler) g).*2 = l ++ g.
Proof. rewrite fmap_app, <- !list_fmap_compose. f_equal; apply list_fmap_id. Qed.

Lemma process_event_stops ev a k s pre h post (r : Res unit) :
  author ev = PDict a -> event ev = PStr k ->
  handlers_for k (st_processor s) ++ _global_handlers (st_processor s) = pre ++ h :: post ->
  Forall well_behaved pre ->
  r <> Done tt ->
  (forall rec s1, fst (invoke_guarded rec ev h s1) = r /\
     exists tl, st_trace (snd (invoke_guarded rec ev h s1)) = st_trace s1 ++ Enter h ev :: tl /\
                invoked tl = []) ->
  fst (process_event ev s) = r /\
  exists t,
    st_trace (snd (process_event ev s)) = st_trace s ++ t /\
    invoked t = pre ++ [h].
Proof.
  intros Ha Hk Hsplit Hwb Hr Hstop.
  rewrite (process_event_one_loop ev a s Ha), Hk. cbn [hashable]. cbv zeta.
  destruct (tagged_split _ _ _ _ _ Hsplit) as (tpre & rec & tpost & -> & <-).
  set (s0 := set_log _ s).
  destruct (tagged_stops ev tpre tpost rec h r s0 Hwb Hr (Hstop rec))
    as [Hres (t & Ht & Hinv)].
  split; [done|]. by exists t.
Qed.

Lemma process_event_non_mapping_author_aux ev s :
  is_dict (author ev) = false ->
  process_event ev s = (Raised AttributeError, s).
Proof.
  intros Ha. unfold process_event, bind, lift, py_get. by destruct (author ev).
Qed.

(** *** Dispatch: where it gives up before any handler *)

(** X6.  If the author of the event is not a mapping, [process_event]
    raises [AttributeError] on its first line: nothing is logged, no handler
    is entered, and the state is as it was. *)
Theorem process_event_non_mapping_author ev s :
  is_dict (author ev) = false ->
  process_event ev s = (Raised AttributeError, s).
Proof. apply process_event_non_mapping_author_aux. Qed.

(** X7.  If the author is a mapping and the kind is a list or a mapping,
    [process_event] writes its one info record and then raises [TypeError]
    from the lookup of the handlers: no handler, keyed or global, is
    entered. *)
Theorem process_event_unhashable_kind ev a s :
  author ev = PDict a -> hashable (event ev) = false ->
  process_event ev s =
    (Raised TypeError,
     set_log (st_log s
       ++ [InfoProcessing (event ev) (default (PStr "Unknown") (a !! "name"))]) s).
Proof.
  intros Ha Hh. by rewrite (process_event_one_loop ev a s Ha), Hh.
Qed.

(** *** Dispatch: where it gives up at a handler *)

(** X9.  A handler that fails with an error not deriving from [Exception]
    ([sys.exit], [KeyboardInterrupt], [asyncio.CancelledError]) ends
    dispatch: when the handlers before it are well behaved, [process_event]
    raises that very error and the handlers entered are those before it and
    itself, none after.  Here and below no handler registers a handler
    while it runs. *)
Theorem process_event_base_exception ev a k s pre h post e :
  author ev = PDict a -> event ev = PStr k ->
  handlers_for k (st_processor s) ++ _global_handlers (st_processor s) = pre ++ h :: post ->
  Forall well_behaved pre ->
  (forall w, fst (handler_call h ev w) = Raised e) ->
  is_Exception e = false ->
  fst (process_event ev s) = Raised e /\
  exists t,
    st_trace (snd (process_event ev s)) = st_trace s ++ t /\
    invoked t = pre ++ [h].
Proof.
  intros Ha Hk Hsplit Hwb Hcall He.
  apply (process_event_stops ev a k s pre h post); try done.
  intros rec s1. rewrite invoke_guarded_run. specialize (Hcall (st_world s1)).
  destruct (handler_call h ev (st_world s1)) as [r w]. cbn in Hcall. subst r.
  cbv zeta. rewrite He. split; [done|]. by exists [Leave h (Some e)].
Qed.

(** X10.  A failing callable with no [__name__] ends dispatch too: the
    error record cannot be written, so when the handlers before it are well
    behaved [process_event] raises [AttributeError], and the handlers
    entered are those before it and itself, none after. *)
Theorem process_event_nameless_failure ev a k s pre h post e :
  author ev = PDict a -> event ev = PStr k ->
  handlers_for k (st_processor s) ++ _global_handlers (st_processor s) = pre ++ h :: post ->
  Forall well_behaved pre ->
  (forall w, fst (handler_call h ev w) = Raised e) ->
  is_Exception e = true ->
  handler_name h = None ->
  fst (process_event ev s) = Raised AttributeError /\
  exists t,
    st_trace (snd (process_event ev s)) = st_trace s ++ t /\
    invoked t = pre ++ [h].
Proof.
  intros Ha Hk Hsplit Hwb Hcall He Hn.
  apply (process_event_stops ev a k s pre h post); try done.
  intros rec s1. rewrite invoke_guarded_run. specialize (Hcall (st_world s1)).
  destruct (handler_call h ev (st_world s1)) as [r w]. cbn in Hcall. subst r.
  cbv zeta. rewrite He, Hn. split; [done|]. by exists [Leave h (Some e)].
Qed.

(** X11.  A handler that never comes back holds dispatch for good: when
    the handlers before it are well behaved, [process_event] does not
    return, and the handlers entered are those before it and itself. *)
Theorem process_event_hanging_handler ev a k s pre h post :
  author ev = PDict a -> event ev = PStr k ->
  handlers_for k (st_processor s) ++ _global_handlers (st_processor s) = pre ++ h :: post ->
  Forall well_behaved pre ->
  (forall w, fst (handler_call h ev w) = Hung) ->
  fst (process_event ev s) = Hung /\
  exists t,
    st_trace (snd (process_event ev s)) = st_trace s ++ t /\
    invoked t = pre ++ [h].
Proof.
  intros Ha Hk Hsplit Hwb Hcall.
  apply (process_event_stops ev a k s pre h post); try done.
  intros rec s1. rewrite invoke_guarded_run. specialize (Hcall (st_world s1)).
  destruct (handler_call h ev (st_world s1)) as [r w]. cbn in Hcall. subst r.
  split; [done|]. by exists [].
Qed.

(** X20.  A handler with a [__name__] that fails with an error deriving
    from [Exception] whose formatting raises ends dispatch as well: the
    f-string of the [except] block raises what the [__str__] of the error
    raises, so when the handlers before it are well behaved
    [process_event] raises that, and the handlers entered are those before
    it and itself, none after. *)
Theorem process_event_unprintable_failure ev a k s pre h post e x n :
  author ev = PDict a -> event ev = PStr k ->
  handlers_for k (st_processor s) ++ _global_handlers (st_processor s) = pre ++ h :: post ->
  Forall well_behaved pre ->
  (forall w, fst (handler_call h ev w) = Raised e) ->
  is_Exception e = true ->
  handler_name h = Some n ->
  handler_format h e = Raised x ->
  fst (process_event ev s) = Raised x /\
  exists t,
    st_trace (snd (process_event ev s)) = st_trace s ++ t /\
    invoked t = pre ++ [h].
Proof.
  intros Ha Hk Hsplit Hwb Hcall He Hn Hf.
  apply (process_event_stops ev a k s pre h post); try done.
  intros rec s1. rewrite invoke_guarded_run. specialize (Hcall (st_world s1)).
  destruct (handler_call h ev (st_world s1)) as [r w]. cbn in Hcall. subst r.
  cbv zeta. rewrite He, Hn, Hf. split; [done|]. by exists [Leave h (Some e)].
Qed.

(** *** Dispatch: what the handlers see *)

(** X12.  With well-behaved handlers that register no handler while they
    run, the handlers run one after the other on a shared state: the state the handlers own after dispatch is the one
    obtained by running the handlers of the kind and then the global ones,
    in order, each from the state the one before it left, failed or not. *)
Theorem process_event_threads_state ev a k s :
  author ev = PDict a -> event ev = PStr k ->
  Forall well_behaved
    (handlers_for k (st_processor s) ++ _global_handlers (st_processor s)) ->
  st_world (snd (process_event ev s))
    = foldl (fun w h => snd (handler_call h ev w)) (st_world s)
        (handlers_for k (st_processor s) ++ _global_handlers (st_processor s)).
Proof.
  intros Ha Hk Hwb.
  rewrite (process_event_one_loop ev a s Ha), Hk. cbn [hashable]. cbv zeta.
  rewrite <- (tagged_snd (handlers_for k (st_processor s))
                (_global_handlers (st_processor s))) in Hwb |- *.
  match goal with |- context [for_each ?th _ ?s0] =>
    destruct (tagged_well_behaved ev th s0 Hwb) as (t & s' & Hrun & _ & _ & Hw) end.
  by rewrite Hrun.
Qed.


(** X14.  Every invocation dispatch makes passes the dispatched event
    itself, whatever the event and the registry. *)
Theorem process_event_passes_event ev s t h ev' :
  st_trace (snd (process_event ev s)) = st_trace s ++ t ->
  Enter h ev' ∈ t ->
  ev' = ev.
Proof.
  intros Ht Hin.
  destruct (is_dict (author ev)) eqn:Hd.
  - destruct (author ev) as [| | | | | |a] eqn:Ha; try done.
    rewrite (process_event_one_loop ev a s Ha) in Ht. cbv zeta in Ht.
    destruct (hashable (event ev)).
    + match type of Ht with context [for_each ?th _ ?s0] =>
        destruct (tagged_any ev th s0) as (t' & Ht' & _ & Hev) end.
      rewrite Ht' in Ht. cbn in Ht. apply app_inv_head in Ht. subst t'.
      rewrite Forall_forall in Hev. by apply (Hev _ Hin h ev').
    + cbn in Ht. rewrite <- (app_nil_r (st_trace s)) in Ht at 1.
      apply app_inv_head in Ht. subst t. by apply elem_of_nil in Hin.
  - rewrite (process_event_non_mapping_author_aux ev s Hd) in Ht. cbn in Ht.
    rewrite <- (app_nil_r (st_trace s)) in Ht at 1.
    apply app_inv_head in Ht. subst t. by apply elem_of_nil in Hin.
Qed.

(** *** Registration, then dispatch *)

(** X15.  A handler just registered for a kind is entered, with the event,
    by the dispatch of any event of that kind whose author is a mapping,
    right after the handlers registered for the kind before it, provided
    these are well behaved and register no handler while they run. *)
Theorem registered_handler_is_dispatched k h ev a s :
  author ev = PDict a -> event ev = PStr k ->
  Forall well_behaved (handlers_for k (st_processor s)) ->
  exists t1 t2,
    st_trace (snd (process_event ev (snd (register_handler k h s))))
      = st_trace s ++ t1 ++ Enter h ev :: t2 /\
    invoked t1 = handlers_for k (st_processor s).
Proof.
  intros Ha Hk Hwb. rewrite register_handler_run. cbn [snd].
  match goal with |- context [process_event ev ?s1] => set (s' := s1) end.
  assert (Hh : hashable (event ev) = true) by (by rewrite Hk).
  apply (process_event_reaches ev a s' (handlers_for k (st_processor s)) h
           (_global_handlers (st_processor s)) Ha Hh); [|done].
  subst s'. unfold dispatch_sequence. rewrite Hk. cbn [keyed_handlers].
  unfold handlers_for at 1. cbn. rewrite lookup_insert_eq. cbn.
  by rewrite <- app_assoc.
Qed.

(** X16.  A handler just registered globally is entered, with the event, by
    the dispatch of any event whose author is a mapping and whose kind is a
    string, right after the handlers of that kind and the global handlers
    registered before it, provided these are well behaved and register no
    handler while they run. *)
Theorem registered_global_handler_is_dispatched k h ev a s :
  author ev = PDict a -> event ev = PStr k ->
  Forall well_behaved
    (handlers_for k (st_processor s) ++ _global_handlers (st_processor s)) ->
  exists t1 t2,
    st_trace (snd (process_event ev (snd (register_global_handler h s))))
      = st_trace s ++ t1 ++ Enter h ev :: t2 /\
    invoked t1 = handlers_for k (st_processor s) ++ _global_handlers (st_processor s).
Proof.
  intros Ha Hk Hwb. rewrite register_global_handler_run. cbn [snd].
  match goal with |- context [process_event ev ?s1] => set (s' := s1) end.
  assert (Hh : hashable (event ev) = true) by (by rewrite Hk).
  apply (process_event_reaches ev a s'
           (handlers_for k (st_processor s) ++ _global_handlers (st_processor s)) h
           [] Ha Hh); [|done].
  subst s'. unfold dispatch_sequence. rewrite Hk. cbn. by rewrite <- app_assoc.
Qed.

(** *** The endpoint *)

(** X17.  Whatever the request, the endpoint itself enters no handler and
    leaves the processor, the handlers' state and the clock alone, and it
    ends in one of these ways only: it returns the 200 answer, and then it
    has scheduled exactly one dispatch, of the event the decoded payload
    normalizes to; or it raises [HTTPException] 400 "Invalid JSON" or 500
    "Internal server error", or lets through an error of [request.json]
    that does not derive from [Exception], or hangs in [request.json], and
    then it has scheduled nothing. *)
Theorem webhook_handler_answers request s :
  st_processor (snd (webhook_handler request s)) = st_processor s /\
  st_world (snd (webhook_handler request s)) = st_world s /\
  st_trace (snd (webhook_handler request s)) = st_trace s /\
  st_clock (snd (webhook_handler request s)) = st_clock s /\
  match fst (webhook_handler request s) with
  | Done response =>
      response = JSONResponse 200 success_content /\
      exists payload ev,
        json request = Done payload /\
        from_payload payload s = (Done ev, s) /\
        st_tasks (snd (webhook_handler request s)) = st_tasks s ++ [ev]
  | Raised e =>
      st_tasks (snd (webhook_handler request s)) = st_tasks s /\
      (e = HTTPException 400 "Invalid JSON" \/
       e = HTTPException 500 "Internal server error" \/
       (is_Exception e = false /\ json request = Raised e))
  | Hung =>
      st_tasks (snd (webhook_handler request s)) = st_tasks s /\
      json request = Hung
  end.
Proof.
  destruct (json request) as [payload|e|] eqn:E.
  - rewrite (webhook_handler_decoded request payload s E).
    destruct payload as [| | | | | |d]; try (cbn; repeat split; auto; fail).
    cbv zeta. rewrite !from_payload_run.
    destruct (default (PDict ∅) (d !! "data")) as [| | | | | |m] eqn:Ed;
      cbn [fst snd set_log set_tasks st_processor st_world st_trace st_clock st_tasks];
      try (repeat split; auto; fail).
    refine (conj eq_refl (conj eq_refl (conj eq_refl (conj eq_refl (conj eq_refl _))))).
    exists (PDict d). eexists. rewrite from_payload_run, Ed. done.
  - rewrite (webhook_handler_decode_error request e s E).
    destruct (is_JSONDecodeError e); [cbn; repeat split; auto|].
    destruct (is_Exception e) eqn:He; cbn; repeat split; auto.
  - unfold webhook_handler, try_except, bind, lift. rewrite E. cbn. repeat split; auto.
Qed.

(** X18.  From body to handlers.  When the body decodes to a mapping whose
    kind is a string or missing, whose data is a mapping or missing and
    whose author is a mapping or missing, and the handlers of that kind and
    the global ones are well behaved and register no handler while they
    run, the request is answered 200 and the
    dispatch that follows makes one complete invocation of each handler of
    the kind and then of each global handler, in registration order, all
    with the normalized event: its kind, data and author are the payload's
    (or the defaults) and its timestamp is the server's clock. *)
Theorem handle_request_dispatches request (d m a : gmap string pyval) k s :
  json request = Done (PDict d) ->
  default (PStr "") (d !! "event") = PStr k ->
  default (PDict ∅) (d !! "data") = PDict m ->
  default (PDict ∅) (m !! "author") = PDict a ->
  Forall well_behaved
    (handlers_for k (st_processor s) ++ _global_handlers (st_processor s)) ->
  let ev := mkWebhookEvent (PStr k) (PDict a) (PDict m) (st_clock s) in
  fst (handle_request request s) = Done (JSONResponse 200 success_content) /\
  st_tasks (snd (handle_request request s)) = [ev] /\
  exists rk rg,
    length rk = length (handlers_for k (st_processor s)) /\
    length rg = length (_global_handlers (st_processor s)) /\
    st_trace (snd (handle_request request s)) = st_trace s
      ++ brackets ev (handlers_for k (st_processor s)) rk
      ++ brackets ev (_global_handlers (st_processor s)) rg.
Proof.
  intros E Hk Hm Ha Hwb ev. apply Forall_app in Hwb as [Hwk Hwg].
  unfold handle_request. rewrite (webhook_handler_decoded request _ _ E).
  cbv zeta. rewrite from_payload_run, Hk, Hm, Ha. cbn [st_clock set_log set_tasks].
  fold ev. cbn [fst snd for_each st_tasks set_tasks app].
  match goal with |- context [bind (process_event ev) _ ?s1] => set (s1' := s1) end.
  destruct (process_event_well_behaved ev a s1' eq_refl eq_refl Hwk Hwg)
    as (rk & rg & s' & Hrun & Hlk & Hlg & Ht & _).
  pose proof (process_event_frame ev s1') as [_ Htasks].
  unfold bind. rewrite Hrun in Htasks |- *. cbn [ret fst snd] in *.
  split; [done|]. split; [by rewrite Htasks|].
  exists rk, rg. by rewrite Ht.
Qed.


End Further.

(* ===================================================================== *)
(** ** The further properties at concrete inputs                          *)
(* ===================================================================== *)

Lemma stacked_decorators_witness :
  exists s',
    (func' <- on "card_moved" (returning "k") ;; on "card_created" func') start
      = (Done (returning "k"), s') /\
    handlers_for "card_created" (st_processor s')
      = handlers_for "card_created" (st_processor start) ++ [returning "k"] /\
    handlers_for "card_moved" (st_processor s')
      = handlers_for "card_moved" (st_processor start) ++ [returning "k"].
Proof.
  apply (stacked_decorators "card_created" "card_moved" (returning "k") start).
  discriminate.
Defined.

Lemma from_payload_reads_two_entries_witness :
  from_payload (PDict comment_fields_with_id) start
    = from_payload (PDict comment_fields) start.
Proof.
  apply (from_payload_reads_two_entries comment_fields_with_id comment_fields start).
  - vm_compute. reflexivity.
  - vm_compute. reflexivity.
Defined.

Lemma run_keyword_arguments_witness :
  (Server.run default_server port_override).2 !! "port" = Some (PInt 9000) /\
  (Server.run default_server port_override).2 !! "host"
    = Server.config_kwargs default_server !! "host" /\
  is_Some ((Server.run default_server port_override).2 !! "log_level").
Proof.
  destruct (run_keyword_arguments default_server port_override)
    as (Hgiven & Hkept & Hthere & _).
  split; [|split].
  - apply Hgiven. vm_compute. reflexivity.
  - apply Hkept. vm_compute. reflexivity.
  - apply Hthere. apply elem_of_cons. right. apply elem_of_cons. right.
    apply elem_of_cons. by left.
Defined.

Lemma process_event_non_mapping_author_witness :
  process_event string_author_event two_then_global
    = (Raised AttributeError, two_then_global).
Proof.
  apply (process_event_non_mapping_author string_author_event two_then_global).
  reflexivity.
Defined.

Lemma process_event_unhashable_kind_witness :
  process_event list_kind_event two_then_global =
    (Raised TypeError,
     set_log (st_log two_then_global
       ++ [InfoProcessing (event list_kind_event)
             (default (PStr "Unknown") ((∅ : gmap string pyval) !! "name"))]) two_then_global).
Proof.
  apply (process_event_unhashable_kind list_kind_event ∅ two_then_global).
  - reflexivity.
  - reflexivity.
Defined.

Lemma process_event_base_exception_witness :
  fst (process_event comment_event exit_then_b) = Raised SystemExit /\
  exists t,
    st_trace (snd (process_event comment_event exit_then_b))
      = st_trace exit_then_b ++ t /\
    invoked t = [] ++ [exiting "a"].
Proof.
  apply (process_event_base_exception comment_event alice_fields "comment_added"
           exit_then_b [] (exiting "a") [returning "b"; returning "g"] SystemExit).
  - reflexivity.
  - reflexivity.
  - vm_compute. reflexivity.
  - constructor.
  - intros w. reflexivity.
  - reflexivity.
Defined.

Lemma process_event_nameless_failure_witness :
  fst (process_event comment_event partial_then_b) = Raised AttributeError /\
  exists t,
    st_trace (snd (process_event comment_event partial_then_b))
      = st_trace partial_then_b ++ t /\
    invoked t = [] ++ [failing_partial "a"].
Proof.
  apply (process_event_nameless_failure comment_event alice_fields "comment_added"
           partial_then_b [] (failing_partial "a") [returning "b"]
           (OtherException "ValueError")).
  - reflexivity.
  - reflexivity.
  - vm_compute. reflexivity.
  - constructor.
  - intros w. reflexivity.
  - reflexivity.
  - reflexivity.
Defined.

Lemma process_event_hanging_handler_witness :
  fst (process_event comment_event hanging_then_b) = Hung /\
  exists t,
    st_trace (snd (process_event comment_event hanging_then_b))
      = st_trace hanging_then_b ++ t /\
    invoked t = [] ++ [hanging "a"].
Proof.
  apply (process_event_hanging_handler comment_event alice_fields "comment_added"
           hanging_then_b [] (hanging "a") [returning "b"]).
  - reflexivity.
  - reflexivity.
  - vm_compute. reflexivity.
  - constructor.
  - intros w. reflexivity.
Defined.

Lemma process_event_unprintable_failure_witness :
  fst (process_event comment_event unprintable_then_b)
    = Raised (OtherException "RuntimeError") /\
  exists t,
    st_trace (snd (process_event comment_event unprintable_then_b))
      = st_trace unprintable_then_b ++ t /\
    invoked t = [] ++ [unprintable "a"].
Proof.
  apply (process_event_unprintable_failure comment_event alice_fields "comment_added"
           unprintable_then_b [] (unprintable "a") [returning "b"; returning "g"]
           (OtherException "Weird") (OtherException "RuntimeError") "a").
  - reflexivity.
  - reflexivity.
  - vm_compute. reflexivity.
  - constructor.
  - intros w. reflexivity.
  - reflexivity.
  - reflexivity.
  - reflexivity.
Defined.

Lemma process_event_threads_state_witness :
  st_world (snd (process_event comment_event two_then_global))
    = foldl (fun w h => snd (handler_call h comment_event w)) (st_world two_then_global)
        (handlers_for "comment_added" (st_processor two_then_global)
         ++ _global_handlers (st_processor two_then_global)).
Proof.
  apply (process_event_threads_state comment_event alice_fields "comment_added"
           two_then_global).
  - reflexivity.
  - reflexivity.
  - discharge_well_behaved.
Defined.


Lemma process_event_passes_event_witness :
  Enter (returning "g") comment_event
    ∈ st_trace (snd (process_event comment_event two_then_global)) /\
  comment_event = comment_event.
Proof.
  assert (Hin : Enter (returning "g") comment_event
                  ∈ st_trace (snd (process_event comment_event two_then_global))).
  { vm_compute. do 4 (apply elem_of_cons; right). apply elem_of_cons. by left. }
  split; [exact Hin|].
  apply (process_event_passes_event comment_event two_then_global
           (st_trace (snd (process_event comment_event two_then_global)))
           (returning "g") comment_event).
  - reflexivity.
  - exact Hin.
Defined.

Lemma registered_handler_is_dispatched_witness :
  exists t1 t2,
    st_trace (snd (process_event comment_event
                     (snd (register_handler "comment_added" (returning "c") two_then_global))))
      = st_trace two_then_global ++ t1 ++ Enter (returning "c") comment_event :: t2 /\
    invoked t1 = handlers_for "comment_added" (st_processor two_then_global).
Proof.
  apply (registered_handler_is_dispatched "comment_added" (returning "c") comment_event
           alice_fields two_then_global).
  - reflexivity.
  - reflexivity.
  - discharge_well_behaved.
Defined.

Lemma registered_global_handler_is_dispatched_witness :
  exists t1 t2,
    st_trace (snd (process_event comment_event
                     (snd (register_global_handler (returning "z") two_then_global))))
      = st_trace two_then_global ++ t1 ++ Enter (returning "z") comment_event :: t2 /\
    invoked t1 = handlers_for "comment_added" (st_processor two_then_global)
                 ++ _global_handlers (st_processor two_then_global).
Proof.
  apply (registered_global_handler_is_dispatched "comment_added" (returning "z")
           comment_event alice_fields two_then_global).
  - reflexivity.
  - reflexivity.
  - discharge_well_behaved.
Defined.

Lemma handle_request_dispatches_witness :
  fst (handle_request (mkRequest (Done comment_payload)) two_then_global)
    = Done (JSONResponse 200 success_content) /\
  st_tasks (snd (handle_request (mkRequest (Done comment_payload)) two_then_global))
    = [comment_event] /\
  exists rk rg,
    length rk = length (handlers_for "comment_added" (st_processor two_then_global)) /\
    length rg = length (_global_handlers (st_processor two_then_global)) /\
    st_trace (snd (handle_request (mkRequest (Done comment_payload)) two_then_global))
      = st_trace two_then_global
        ++ brackets comment_event
             (handlers_for "comment_added" (st_processor two_then_global)) rk
        ++ brackets comment_event (_global_handlers (st_processor two_then_global)) rg.
Proof.
  apply (handle_request_dispatches (mkRequest (Done comment_payload)) comment_fields
           {[ "author" := alice; "text" := PStr "hi" ]} alice_fields "comment_added"
           two_then_global).
  - reflexivity.
  - vm_compute. reflexivity.
  - vm_compute. reflexivity.
  - vm_compute. reflexivity.
  - discharge_well_behaved.
Defined.

